(** * Nearest-point distance benchmarks (2d-distance-compare.py, 3d-distance-compare.py)

    A shallow embedding of the two scripts and the properties of their
    nearest-point scans and of the timing harness.

    Numbers.  The points handed to the scans are tuples of Python floats
    (the generator draws them with [random.uniform]); a Python float is an
    IEEE-754 binary64 number and [math.sqrt] is the correctly rounded square
    root, which is what Rocq's primitive [float] and [PrimFloat.sqrt] are.
    The target is written with integer literals, [(500, 500)]; in
    [x - target[0]] the integer is converted to the float of the same value,
    so the target is carried as a tuple of floats as well.  The best value of
    a scan starts as [float('inf')], that is [infinity].

    Effects.  The random generator and the clock are read through a state
    monad over the sequence of values they will return.  The numeric
    routines of the [statistics] module are a parameter of the harness.

    The file has the embedding first, then the vocabulary of the properties,
    the lemmas (the scan, binary64 numbers, the generators, the harness, the
    store), a few evaluated runs, the properties C1 to C10, one theorem
    each, and further properties X1 to X11 of the generators, the scans and
    the harness. *)

From Stdlib Require Import Floats ZArith List Bool Lia Permutation.
Import ListNotations.

Local Open Scope float_scope.

(** ** Points and scan results *)

Definition point2 : Type := float * float.
Definition point3 : Type := float * float * float.

(** What a scan returns: [(closest_point, min_dist)]; [None] is Python's [None]. *)
Definition found (P : Type) : Type := option P * float.

(** ** 2d-distance-compare.py *)

Module Py2D.

(** The value computed for one point in the body of each loop. *)
Definition dist_sqrt (target p : point2) : float :=
  let '(x, y) := p in
  let dx := x - fst target in
  let dy := y - snd target in
  sqrt (dx * dx + dy * dy).

Definition dist_squared (target p : point2) : float :=
  let '(x, y) := p in
  let dx := x - fst target in
  let dy := y - snd target in
  dx * dx + dy * dy.

Definition find_closest_with_sqrt (sources : list point2) (target : point2)
  : found point2 :=
  let min_dist := infinity in
  let closest_point := None in
  fold_left
    (fun '(closest_point, min_dist) '(x, y) =>
       let dx := x - fst target in
       let dy := y - snd target in
       let dist := sqrt (dx * dx + dy * dy) in
       if dist <? min_dist then (Some (x, y), dist)
       else (closest_point, min_dist))
    sources (closest_point, min_dist).

Definition find_closest_with_squared (sources : list point2) (target : point2)
  : found point2 :=
  let min_dist_sq := infinity in
  let closest_point := None in
  fold_left
    (fun '(closest_point, min_dist_sq) '(x, y) =>
       let dx := x - fst target in
       let dy := y - snd target in
       let dist_sq := dx * dx + dy * dy in
       if dist_sq <? min_dist_sq then (Some (x, y), dist_sq)
       else (closest_point, min_dist_sq))
    sources (closest_point, min_dist_sq).

End Py2D.

(** ** 3d-distance-compare.py *)

Module Py3D.

Definition dist_sqrt (target p : point3) : float :=
  let '(x, y, z) := p in
  let '(t0, t1, t2) := target in
  let dx := x - t0 in
  let dy := y - t1 in
  let dz := z - t2 in
  sqrt (dx * dx + dy * dy + dz * dz).

Definition dist_squared (target p : point3) : float :=
  let '(x, y, z) := p in
  let '(t0, t1, t2) := target in
  let dx := x - t0 in
  let dy := y - t1 in
  let dz := z - t2 in
  dx * dx + dy * dy + dz * dz.

Definition dist_manhattan (target p : point3) : float :=
  let '(x, y, z) := p in
  let '(t0, t1, t2) := target in
  abs (x - t0) + abs (y - t1) + abs (z - t2).

Definition find_closest_3d_with_sqrt (sources : list point3) (target : point3)
  : found point3 :=
  let '(t0, t1, t2) := target in
  let min_dist := infinity in
  let closest_point := None in
  fold_left
    (fun '(closest_point, min_dist) '(x, y, z) =>
       let dx := x - t0 in
       let dy := y - t1 in
       let dz := z - t2 in
       let dist := sqrt (dx * dx + dy * dy + dz * dz) in
       if dist <? min_dist then (Some (x, y, z), dist)
       else (closest_point, min_dist))
    sources (closest_point, min_dist).

Definition find_closest_3d_with_squared (sources : list point3) (target : point3)
  : found point3 :=
  let '(t0, t1, t2) := target in
  let min_dist_sq := infinity in
  let closest_point := None in
  fold_left
    (fun '(closest_point, min_dist_sq) '(x, y, z) =>
       let dx := x - t0 in
       let dy := y - t1 in
       let dz := z - t2 in
       let dist_sq := dx * dx + dy * dy + dz * dz in
       if dist_sq <? min_dist_sq then (Some (x, y, z), dist_sq)
       else (closest_point, min_dist_sq))
    sources (closest_point, min_dist_sq).

Definition find_closest_3d_with_manhattan (sources : list point3) (target : point3)
  : found point3 :=
  let '(t0, t1, t2) := target in
  let min_dist := infinity in
  let closest_point := None in
  fold_left
    (fun '(closest_point, min_dist) '(x, y, z) =>
       let dist := abs (x - t0) + abs (y - t1) + abs (z - t2) in
       if dist <? min_dist then (Some (x, y, z), dist)
       else (closest_point, min_dist))
    sources (closest_point, min_dist).

End Py3D.

(** ** Effects: a state monad for the random generator and for the clock *)

Definition State (S A : Type) : Type := S -> A * S.

Definition ret {S A : Type} (a : A) : State S A := fun s => (a, s).

Definition bind {S A B : Type} (c : State S A) (k : A -> State S B) : State S B :=
  fun s => let '(a, s') := c s in k a s'.

Declare Scope state_scope.
Delimit Scope state_scope with state.
Notation "x <- c ;; k" := (bind c (fun x => k))
  (at level 61, c at next level, right associativity) : state_scope.

(** ** Data generation: [generate_test_data], [generate_3d_test_data] *)

(** The state of the [random] module: the sequence of values [random.random()]
    will return, and how many have been taken. *)
Record rng : Type := { draws : nat -> float; drawn : nat }.

Definition random : State rng float :=
  fun g => (draws g (drawn g), {| draws := draws g; drawn := S (drawn g) |}).

(** [random.uniform(a, b)] is [a + (b - a) * random()]. *)
Definition uniform (a b : float) : State rng float :=
  (u <- random ;; ret (a + (b - a) * u))%state.

(** [[e for _ in range(n)]]: [range(n)] is empty for [n <= 0]. *)
Fixpoint comprehension {S A : Type} (e : State S A) (n : nat) : State S (list A) :=
  match n with
  | O => ret []
  | S n' => (a <- e ;; rest <- comprehension e n' ;; ret (a :: rest))%state
  end.

Definition range_len (n : Z) : nat := Z.to_nat n.

Definition generate_test_data (num_points : Z) : State rng (list point2 * point2) :=
  (sources <- comprehension
                (x <- uniform 0 1000 ;; y <- uniform 0 1000 ;; ret (x, y))
                (range_len num_points) ;;
   let target := (500, 500) in
   ret (sources, target))%state.

Definition generate_3d_test_data (num_points : Z) : State rng (list point3 * point3) :=
  (sources <- comprehension
                (x <- uniform 0 1000 ;; y <- uniform 0 1000 ;;
                 z <- uniform 0 1000 ;; ret (x, y, z))
                (range_len num_points) ;;
   let target := (500, 500, 500) in
   ret (sources, target))%state.

(** ** The timing harness: [benchmark_method], [benchmark_3d_method] *)

(** [time.perf_counter()]: the clock is the sequence of its readings. *)
Record clock : Type := { reading : nat -> float; reads : nat }.

Definition perf_counter : State clock float :=
  fun c => (reading c (reads c), {| reading := reading c; reads := S (reads c) |}).

Inductive exn : Type := StatisticsError | ValueError.

(** The numeric routines of Python's [statistics] module are not part of the
    repository: the value each returns on data it accepts is a parameter.
    When they raise is what the module documents: [mean] and [median] raise
    [StatisticsError] on empty data, [stdev] on fewer than two values. *)
Record statistics : Type := {
  mean_of : list float -> float;
  median_of : list float -> float;
  stdev_of : list float -> float
}.

Definition statistics_mean (lib : statistics) (data : list float) : exn + float :=
  match data with
  | [] => inl StatisticsError
  | _ :: _ => inr (mean_of lib data)
  end.

Definition statistics_median (lib : statistics) (data : list float) : exn + float :=
  match data with
  | [] => inl StatisticsError
  | _ :: _ => inr (median_of lib data)
  end.

Definition statistics_stdev (lib : statistics) (data : list float) : exn + float :=
  if (length data <? 2)%nat then inl StatisticsError
  else inr (stdev_of lib data).

(** The builtins [min] and [max]: the first smallest (largest) item; they
    raise [ValueError] on an empty sequence. *)
Definition py_min (data : list float) : exn + float :=
  match data with
  | [] => inl ValueError
  | x :: rest => inr (fold_left (fun cur item => if item <? cur then item else cur) rest x)
  end.

Definition py_max (data : list float) : exn + float :=
  match data with
  | [] => inl ValueError
  | x :: rest => inr (fold_left (fun cur item => if cur <? item then item else cur) rest x)
  end.

(** A Python number that is either an [int] or a [float]: ['std_dev'] is the
    float [statistics.stdev] returns or the integer literal [0]. *)
Inductive pynum : Type :=
| PyInt (n : Z)
| PyFloat (x : float).

(** The dictionary the harness returns. *)
Record benchmark_stats (R : Type) : Type := {
  times : list float;
  mean_time : float;
  median_time : float;
  std_dev : pynum;
  min_time : float;
  max_time : float;
  results : list R
}.
Arguments times {R}.
Arguments mean_time {R}.
Arguments median_time {R}.
Arguments std_dev {R}.
Arguments min_time {R}.
Arguments max_time {R}.
Arguments results {R}.

Definition try {A B : Type} (c : exn + A) (k : A -> exn + B) : exn + B :=
  match c with
  | inl e => inl e
  | inr a => k a
  end.

(** The body of [for _ in range(num_runs)], with the two lists it appends to. *)
Fixpoint timed_runs {P R : Type} (method_func : list P -> P -> R)
    (sources : list P) (target : P) (n : nat)
    (times : list float) (results : list R)
  : State clock (list float * list R) :=
  match n with
  | O => ret (times, results)
  | S n' =>
      (start_time <- perf_counter ;;
       let result := method_func sources target in
       end_time <- perf_counter ;;
       timed_runs method_func sources target n'
         (times ++ [end_time - start_time]) (results ++ [result]))%state
  end.

(** The dictionary of the [return] statement, its entries evaluated in
    order; the first call that raises ends the evaluation. *)
Definition summary {R : Type} (lib : statistics)
    (times : list float) (results : list R) : exn + benchmark_stats R :=
  try (statistics_mean lib times) (fun mean_time =>
  try (statistics_median lib times) (fun median_time =>
  try (if (1 <? length times)%nat
       then try (statistics_stdev lib times) (fun s => inr (PyFloat s))
       else inr (PyInt 0)) (fun std_dev =>
  try (py_min times) (fun min_time =>
  try (py_max times) (fun max_time =>
  inr {| times := times;
         mean_time := mean_time;
         median_time := median_time;
         std_dev := std_dev;
         min_time := min_time;
         max_time := max_time;
         results := results |}))))).

Definition benchmark_method {P R : Type} (lib : statistics)
    (method_func : list P -> P -> R) (sources : list P) (target : P)
    (num_runs : Z)
  : State clock (exn + benchmark_stats R) :=
  (tr <- timed_runs method_func sources target (range_len num_runs) [] [] ;;
   let '(times, results) := tr in
   ret (summary lib times results))%state.

(** [benchmark_3d_method] has the same body; only the default of [num_runs]
    differs (15 for 10), and every caller passes [num_runs]. *)
Definition benchmark_3d_method {P R : Type} := @benchmark_method P R.

(** ** [compare_distance_metrics]: the three metrics of one pair of points

    The two points are tuples of Python integers, so the differences, the
    squared distance and the Manhattan distance are exact integers;
    [math.sqrt] converts its integer argument to a float first. *)

Definition float_of_int (n : Z) : float := of_uint63 (Uint63.of_Z n).

Definition distance_metrics (point1 point2 : Z * Z * Z) : float * Z * Z :=
  let '(a0, a1, a2) := point1 in
  let '(b0, b1, b2) := point2 in
  let '(dx, dy, dz) := (b0 - a0, b1 - a1, b2 - a2)%Z in
  let euclidean := sqrt (float_of_int (dx * dx + dy * dy + dz * dz)) in
  let squared_euclidean := (dx * dx + dy * dy + dz * dz)%Z in
  let manhattan := (Z.abs dx + Z.abs dy + Z.abs dz)%Z in
  (euclidean, squared_euclidean, manhattan).

Definition compare_distance_metrics : float * Z * Z :=
  let point1 := (0, 0, 0)%Z in
  let point2 := (3, 4, 5)%Z in
  distance_metrics point1 point2.

(** ** The objects a scan is handed

    [sources] is a Python list, an object the callee could change in place;
    the scans are run here as the interpreter runs them, over a store that
    holds the list and the target, the loop reading item [i] of the list
    object at its [i]-th turn.  The locals of a call are its own. *)

Record store (P : Type) : Type := { sources_obj : list P; target_obj : P }.
Arguments sources_obj {P}.
Arguments target_obj {P}.

Record locals (P : Type) : Type := {
  min_dist : float;
  closest_point : option P;
  next_index : nat
}.
Arguments min_dist {P}.
Arguments closest_point {P}.
Arguments next_index {P}.

Section Exec.
Context {P : Type}.
(** The value the loop body computes from the target and the item. *)
Variable value : P -> P -> float.

(** One turn of the [for] loop: [None] when the iterator is exhausted. *)
Definition loop_turn (l : locals P) : State (store P) (option (locals P)) :=
  fun h =>
    match nth_error (sources_obj h) (next_index l) with
    | None => (None, h)
    | Some p =>
        let dist := value (target_obj h) p in
        (Some (if dist <? min_dist l
               then {| min_dist := dist; closest_point := Some p;
                       next_index := S (next_index l) |}
               else {| min_dist := min_dist l; closest_point := closest_point l;
                       next_index := S (next_index l) |}), h)
    end.

(** The loop, bounded by [fuel] turns; [None] when the bound is reached. *)
Fixpoint loop (fuel : nat) (l : locals P) : State (store P) (option (found P)) :=
  match fuel with
  | O => ret None
  | S fuel' =>
      (r <- loop_turn l ;;
       match r with
       | None => ret (Some (closest_point l, min_dist l))
       | Some l' => loop fuel' l'
       end)%state
  end.

Definition exec_scan (fuel : nat) : State (store P) (option (found P)) :=
  loop fuel {| min_dist := infinity; closest_point := None; next_index := 0 |}.
End Exec.

(** Several scans, one after the other, over the same store. *)
Fixpoint exec_all {P : Type} (values : list (P -> P -> float)) (fuel : nat)
  : State (store P) (list (option (found P))) :=
  match values with
  | [] => ret []
  | v :: rest =>
      (r <- exec_scan v fuel ;; rs <- exec_all rest fuel ;; ret (r :: rs))%state
  end.

(** * The vocabulary of the properties *)

(** ** The loop shared by the five strategies

    Every strategy is the same loop over a different per-point value:
    [scan value sources (None, infinity)]. *)

Definition scan_step {P : Type} (value : P -> float) (st : found P) (p : P)
  : found P :=
  if value p <? snd st then (Some p, value p) else st.

Definition scan {P : Type} (value : P -> float) (sources : list P)
    (st : found P) : found P :=
  fold_left (scan_step value) sources st.

(** ** Floats *)

(** A decoded number with the sign bit clear, or a NaN. *)
Definition SFnonneg (x : spec_float) : bool :=
  match x with
  | S754_nan => true
  | S754_zero s | S754_infinity s | S754_finite s _ _ => negb s
  end.

Definition nonneg (x : float) : Prop := SFnonneg (Prim2SF x) = true.

(** A decoded number that carries the sign [s], or a NaN. *)
Definition signed_as (s : bool) (x : spec_float) : Prop :=
  match x with
  | S754_nan => True
  | S754_zero s' | S754_infinity s' | S754_finite s' _ _ => s' = s
  end.

(** [math.isfinite]: neither an infinity nor a NaN. *)
Definition isfinite (x : float) : bool := abs x <? infinity.

(** A zero, or a finite number of absolute value below [2^k]. *)
Definition SFmag (k : Z) (x : spec_float) : bool :=
  match x with
  | S754_zero _ => true
  | S754_finite _ m e => (Zpos (digits2_pos m) + e <=? k)%Z
  | _ => false
  end.

(** A finite number whose exponent is at least [k]; true of the others. *)
Definition SFexp_from (k : Z) (x : spec_float) : bool :=
  match x with
  | S754_finite _ _ e => (k <=? e)%Z
  | _ => true
  end.

(** The coordinate domain of the generators, [random.uniform(0, 1000)]; the
    targets (500, 500) and (500, 500, 500) are at its centre. *)
Definition in_domain (x : float) : bool := (0 <=? x) && (x <=? 1000).

Definition in_domain2 (p : point2) : bool :=
  let '(x, y) := p in in_domain x && in_domain y.

Definition in_domain3 (p : point3) : bool :=
  let '(x, y, z) := p in in_domain x && in_domain y && in_domain z.

(** The square root of the positive number [m * 2^e], as [SFsqrt] computes
    it: the mantissa is scaled to the integer [sqrt_arg m e], of 105 or 106
    binary digits; its integer root has 53 digits and is the mantissa of the
    result at exponent [sqrt_exp m e], or that mantissa plus one
    ([round_up]) when the remainder says the real root is past the half. *)
Definition sqrt_exp (m : positive) (e : Z) : Z :=
  (Z.div2 (Zpos (digits2_pos m) + e + 1) - 53)%Z.

Definition sqrt_arg (m : positive) (e : Z) : Z :=
  (Zpos m * 2 ^ (e - 2 * sqrt_exp m e))%Z.

Definition round_up (q e : Z) : spec_float :=
  if (q + 1 =? 2 ^ 53)%Z then S754_finite false (Z.to_pos (2 ^ 52)) (e + 1)
  else S754_finite false (Z.to_pos (q + 1)) e.

(** ** Properties of a strategy *)

(** [p], of value [m], is the first point of [l] at which the minimum is
    reached: every point before it has a value that is not below or equal to
    [m], and no point after it has a value below [m]. *)
Definition earliest_minimum {P : Type} (value : P -> float)
    (l : list P) (p : P) (m : float) : Prop :=
  exists l1 l2,
    l = l1 ++ p :: l2 /\ m = value p /\
    (forall q, In q l1 -> (value q <=? m) = false) /\
    (forall q, In q l2 -> (value q <? m) = false).

(** A strategy [find] with per-point value [value] starts from
    [(None, infinity)] and handles one more point by the strict test
    [value < best].  So it returns the earliest point of minimal value: a
    point below [infinity] that is strictly below every point before it and
    that no point after it is strictly below is the one returned; whatever
    point is returned is the earliest minimum; and [None] is returned only
    when no point is below [infinity]. *)
Definition strict_single_pass {P : Type}
    (find : list P -> P -> found P) (value : P -> P -> float) : Prop :=
  forall sources target,
    find [] target = (None, infinity) /\
    (forall p,
        find (sources ++ [p]) target
        = if value target p <? snd (find sources target)
          then (Some p, value target p)
          else find sources target) /\
    (forall l1 p l2,
        sources = l1 ++ p :: l2 ->
        (value target p <? infinity) = true ->
        (forall q, In q l1 -> (value target p <? value target q) = true) ->
        (forall q, In q l2 -> (value target q <? value target p) = false) ->
        find sources target = (Some p, value target p)) /\
    (forall p m,
        find sources target = (Some p, m) ->
        earliest_minimum (value target) sources p m) /\
    (forall m,
        find sources target = (None, m) ->
        m = infinity /\
        forall q, In q sources -> (value target q <? infinity) = false).

(** Splitting the point set: the result on [l1 ++ l2] is the better of the
    results on [l1] and on [l2], the one on [l1] when neither value is below
    the other; and it is above neither. *)
Definition merges {P : Type} (find : list P -> P -> found P) : Prop :=
  forall l1 l2 target,
    let r1 := find l1 target in
    let r2 := find l2 target in
    let r := find (l1 ++ l2) target in
    r = (if snd r2 <? snd r1 then r2 else r1) /\
    (snd r1 <? snd r) = false /\
    (snd r2 <? snd r) = false.

(** The value returned is the same for every order of the points. *)
Definition order_free_value {P : Type} (find : list P -> P -> found P) : Prop :=
  forall l l' target,
    Permutation l l' -> snd (find l target) = snd (find l' target).

(** The shape of a result: the value is a number (not a NaN) and is not
    negative; with [None] it is [infinity]; with a point, the point is in the
    set and the value is the point's, below [infinity]. *)
Definition result_shape {P : Type}
    (find : list P -> P -> found P) (value : P -> P -> float) : Prop :=
  forall sources target,
    let '(c, m) := find sources target in
    (m =? m) = true /\
    (m <? 0) = false /\
    match c with
    | None => m = infinity
    | Some p => In p sources /\ m = value target p /\ (m <? infinity) = true
    end.

(** The two Euclidean strategies return [None] together, and otherwise two
    points at the same rounded distance of the target, the square-root
    strategy's point standing no later in the set than the other. *)
Definition same_rounded_distance {P : Type}
    (find_sqrt find_squared : list P -> P -> found P)
    (dist : P -> P -> float) : Prop :=
  forall sources target,
    match fst (find_sqrt sources target), fst (find_squared sources target) with
    | None, None => True
    | Some p, Some q =>
        dist target p = dist target q /\
        exists l1 l2, sources = l1 ++ p :: l2 /\ (q = p \/ In q l2)
    | _, _ => False
    end.

(** On a point set that is not empty, with the points and the target in
    the domain, [find] returns a point of the set with its value, which is
    a finite number: never [None]. *)
Definition finds_a_point {P : Type} (domain : P -> bool)
    (find : list P -> P -> found P) (value : P -> P -> float) : Prop :=
  forall sources target,
    sources <> [] ->
    Forall (fun p => domain p = true) sources -> domain target = true ->
    exists p,
      In p sources /\
      find sources target = (Some p, value target p) /\
      isfinite (value target p) = true.

(** No two of the values, one below the other, have the same square root. *)
Definition roots_distinct (values : list float) : Prop :=
  forall a b, In a values -> In b values -> (a <? b) = true -> sqrt a <> sqrt b.

(** The scan of a single point of the domain, for a target of the domain:
    the point comes back with its value, which is a finite number. *)
Definition single_point_found {P : Type} (domain : P -> bool)
    (find : list P -> P -> found P) (value : P -> P -> float) : Prop :=
  forall p target,
    domain p = true -> domain target = true ->
    find [p] target = (Some p, value target p) /\
    isfinite (value target p) = true.

(** No point other than the target has a value equal to zero. *)
Definition zero_only_at_target {P : Type}
    (value : P -> P -> float) (sources : list P) (target : P) : Prop :=
  forall q, In q sources -> (value target q =? 0) = true -> q = target.

(** Whatever the other points are, a set that holds [target] gives
    [target] back, with the value 0. *)
Definition finds_target {P : Type}
    (find : list P -> P -> found P) (target : P) : Prop :=
  forall sources, In target sources -> find sources target = (Some target, 0).

(** Run over the store, the scan of [value] ends within [fuel] turns,
    returns what [find] computes from the list and the target it found in the
    store, and hands the store back as it was. *)
Definition leaves_store_alone {P : Type}
    (value : P -> P -> float) (find : list P -> P -> found P) : Prop :=
  forall (h : store P) fuel,
    (length (sources_obj h) < fuel)%nat ->
    exec_scan value fuel h = (Some (find (sources_obj h) (target_obj h)), h).

(** Any sequence of scans over one store: the store is unchanged at the end,
    every scan returns what it returns on the initial list and target, and
    running them in another order only reorders the results. *)
Definition order_insensitive (P : Type) : Prop :=
  forall (values values' : list (P -> P -> float)) (h : store P) fuel,
    (length (sources_obj h) < fuel)%nat ->
    snd (exec_all values fuel h) = h /\
    fst (exec_all values fuel h)
    = map (fun v => Some (scan (v (target_obj h)) (sources_obj h) (None, infinity)))
          values /\
    (Permutation values values' ->
     Permutation (fst (exec_all values fuel h)) (fst (exec_all values' fuel h))).

(** ** Properties of the generators *)

(** The random generator after [n] more draws. *)
Definition after_draws (g : rng) (n : nat) : rng :=
  {| draws := draws g; drawn := n + drawn g |}.

(** The coordinate [uniform(0, 1000)] makes of the [k]-th coming draw. *)
Definition coordinate (g : rng) (k : nat) : float :=
  0 + (1000 - 0) * draws g (k + drawn g).

(** Every value [random.random()] will return is in [0, 1). *)
Definition unit_draws (g : rng) : Prop :=
  forall k, (0 <=? draws g k) = true /\ (draws g k <? 1) = true.

(** ** Properties of the harness *)

(** The [n] elapsed times the loop measures from clock [c]: each turn reads
    the clock twice. *)
Fixpoint elapsed (c : clock) (n : nat) : list float :=
  match n with
  | O => []
  | S n' =>
      (reading c (S (reads c)) - reading c (reads c))
        :: elapsed {| reading := reading c; reads := S (S (reads c)) |} n'
  end.

(** The clock after [n] turns. *)
Definition advance (c : clock) (n : nat) : clock :=
  {| reading := reading c; reads := 2 * n + reads c |}.

(** What a harness is: the type of [benchmark_method]. *)
Definition harness : Type :=
  forall P R : Type, statistics -> (list P -> P -> R) -> list P -> P -> Z ->
                     State clock (exn + benchmark_stats R).

(** For [num_runs >= 1] the harness returns its dictionary, and ['results']
    is [num_runs] copies of the one result of [method_func]. *)
Definition repeats_identical (bench : harness) : Prop :=
  forall (P R : Type) lib (method_func : list P -> P -> R) sources target
         num_runs c,
    (1 <= num_runs)%Z ->
    exists st,
      fst (bench P R lib method_func sources target num_runs c) = inr st /\
      results st = repeat (method_func sources target) (Z.to_nat num_runs) /\
      length (results st) = Z.to_nat num_runs /\
      (forall r, In r (results st) -> r = method_func sources target).

(** With one run the dictionary is returned with ['std_dev'] the integer 0;
    with more, ['std_dev'] is the float [statistics.stdev] computes from the
    samples. *)
Definition stdev_guarded (bench : harness) : Prop :=
  forall (P R : Type) lib (method_func : list P -> P -> R) sources target c,
    (let t := reading c (S (reads c)) - reading c (reads c) in
     fst (bench P R lib method_func sources target 1%Z c)
     = inr {| times := [t];
              mean_time := mean_of lib [t];
              median_time := median_of lib [t];
              std_dev := PyInt 0;
              min_time := t;
              max_time := t;
              results := [method_func sources target] |}) /\
    (forall num_runs,
        (1 < num_runs)%Z ->
        exists st,
          fst (bench P R lib method_func sources target num_runs c) = inr st /\
          times st = elapsed c (Z.to_nat num_runs) /\
          length (times st) = Z.to_nat num_runs /\
          std_dev st = PyFloat (stdev_of lib (times st))).

(** What the harness does with the clock: it reads it twice per run and
    not otherwise, and the sample of run [i] is the difference of the two
    readings of that run. *)
Definition clock_read_twice_per_run (bench : harness) : Prop :=
  forall (P R : Type) lib (method_func : list P -> P -> R) sources target
         num_runs c,
    snd (bench P R lib method_func sources target num_runs c)
    = advance c (Z.to_nat num_runs) /\
    ((1 <= num_runs)%Z ->
     exists st,
       fst (bench P R lib method_func sources target num_runs c) = inr st /\
       length (times st) = Z.to_nat num_runs /\
       forall i, (i < Z.to_nat num_runs)%nat ->
         nth_error (times st) i
         = Some (reading c (2 * i + 1 + reads c) - reading c (2 * i + reads c))).

(** ['min_time'] and ['max_time'] are samples, and no sample is below the
    first or above the second. *)
Definition min_max_of_samples (bench : harness) : Prop :=
  forall (P R : Type) lib (method_func : list P -> P -> R) sources target
         num_runs c,
    (1 <= num_runs)%Z ->
    exists st,
      fst (bench P R lib method_func sources target num_runs c) = inr st /\
      In (min_time st) (times st) /\
      In (max_time st) (times st) /\
      (forall t, In t (times st) -> (t <? min_time st) = false) /\
      (forall t, In t (times st) -> (max_time st <? t) = false).

(** Asked for no run, the harness raises [StatisticsError], the clock
    not read. *)
Definition raises_without_runs (bench : harness) : Prop :=
  forall (P R : Type) lib (method_func : list P -> P -> R) sources target
         num_runs c,
    (num_runs <= 0)%Z ->
    bench P R lib method_func sources target num_runs c
    = (inl StatisticsError, c).

(** * Lemmas *)

(** ** The shared scan *)

Section Scan.
Context {P : Type}.
Variable value : P -> float.

Lemma scan_cons p l st : scan value (p :: l) st = scan value l (scan_step value st p).
Proof. reflexivity. Qed.

Lemma scan_app l1 l2 st : scan value (l1 ++ l2) st = scan value l2 (scan value l1 st).
Proof. unfold scan. apply fold_left_app. Qed.

Lemma scan_snoc l p st : scan value (l ++ [p]) st = scan_step value (scan value l st) p.
Proof. rewrite scan_app. reflexivity. Qed.

(** Points that do not beat the current best leave the state alone. *)
Lemma scan_no_better l : forall st,
  (forall q, In q l -> (value q <? snd st) = false) ->
  scan value l st = st.
Proof.
  induction l as [|q l IH]; intros st H; [reflexivity|].
  rewrite scan_cons. unfold scan_step at 1.
  rewrite (H q (or_introl eq_refl)).
  apply IH. intros q' Hq'. apply H. now right.
Qed.

(** The best value is [m0] or the value of a point of the list. *)
Lemma scan_value_cases l : forall c m,
  scan value l (c, m) = (c, m) \/
  exists p, In p l /\ scan value l (c, m) = (Some p, value p).
Proof.
  induction l as [|q l IH]; intros c m; [now left|].
  rewrite scan_cons. unfold scan_step. cbn [snd].
  destruct (value q <? m) eqn:E.
  - right. destruct (IH (Some q) (value q)) as [H | (p & Hp & H)].
    + exists q. split; [now left | exact H].
    + exists p. split; [now right | exact H].
  - destruct (IH c m) as [H | (p & Hp & H)]; [now left|].
    right. exists p. split; [now right | exact H].
Qed.

(** A point that beats the best of everything before it and is not beaten
    by anything after it is the one returned. *)
Lemma scan_first_min l1 p l2 c m :
  (value p <? snd (scan value l1 (c, m))) = true ->
  (forall q, In q l2 -> (value q <? value p) = false) ->
  scan value (l1 ++ p :: l2) (c, m) = (Some p, value p).
Proof.
  intros Hp Hl2.
  rewrite scan_app, scan_cons. unfold scan_step at 1. rewrite Hp.
  now apply scan_no_better.
Qed.
End Scan.

(** Two scans of one list through different values make the same choices
    when the two values compare alike. *)
Lemma scan_agree {P : Type} (v1 v2 : P -> float) (l : list P) :
  forall (c : option P) (m1 m2 : float),
    (forall p, In p l -> (v1 p <? m1) = (v2 p <? m2)) ->
    (forall p q, In p l -> In q l -> (v1 p <? v1 q) = (v2 p <? v2 q)) ->
    fst (scan v1 l (c, m1)) = fst (scan v2 l (c, m2)).
Proof.
  induction l as [|a l IH]; intros c m1 m2 H0 H; [reflexivity|].
  rewrite !scan_cons. unfold scan_step. cbn [snd].
  rewrite <- (H0 a (or_introl eq_refl)).
  destruct (v1 a <? m1).
  - apply IH.
    + intros p Hp. apply H; [now right | now left].
    + intros p q Hp Hq. apply H; now right.
  - apply IH.
    + intros p Hp. apply H0. now right.
    + intros p q Hp Hq. apply H; now right.
Qed.

Lemma fold_left_pointwise {A B : Type} (f g : A -> B -> A) :
  (forall a b, f a b = g a b) ->
  forall l a, fold_left f l a = fold_left g l a.
Proof.
  intros Hfg l. induction l as [|b l IH]; intros a; [reflexivity|].
  cbn [fold_left]. rewrite Hfg. apply IH.
Qed.

(** Each strategy is the shared scan over its own value. *)
Lemma find_closest_with_sqrt_scan sources target :
  Py2D.find_closest_with_sqrt sources target
  = scan (Py2D.dist_sqrt target) sources (None, infinity).
Proof.
  apply fold_left_pointwise. intros [c m] [x y]. reflexivity.
Qed.

Lemma find_closest_with_squared_scan sources target :
  Py2D.find_closest_with_squared sources target
  = scan (Py2D.dist_squared target) sources (None, infinity).
Proof.
  apply fold_left_pointwise. intros [c m] [x y]. reflexivity.
Qed.

Lemma find_closest_3d_with_sqrt_scan sources target :
  Py3D.find_closest_3d_with_sqrt sources target
  = scan (Py3D.dist_sqrt target) sources (None, infinity).
Proof.
  destruct target as [[t0 t1] t2].
  apply fold_left_pointwise. intros [c m] [[x y] z]. reflexivity.
Qed.

Lemma find_closest_3d_with_squared_scan sources target :
  Py3D.find_closest_3d_with_squared sources target
  = scan (Py3D.dist_squared target) sources (None, infinity).
Proof.
  destruct target as [[t0 t1] t2].
  apply fold_left_pointwise. intros [c m] [[x y] z]. reflexivity.
Qed.

Lemma find_closest_3d_with_manhattan_scan sources target :
  Py3D.find_closest_3d_with_manhattan sources target
  = scan (Py3D.dist_manhattan target) sources (None, infinity).
Proof.
  destruct target as [[t0 t1] t2].
  apply fold_left_pointwise. intros [c m] [[x y] z]. reflexivity.
Qed.

(** ** The order of binary64 numbers

    [<?] and [<=?] on floats are specified by [SFcompare] on the decoded
    numbers; what the scans need of them is proved on that specification. *)

Ltac cmp_cases :=
  repeat match goal with
  | |- context [Z.compare ?a ?b] => destruct (Z.compare_spec a b)
  | |- context [Pos.compare_cont Eq ?a ?b] =>
      change (Pos.compare_cont Eq a b) with (Pos.compare a b);
      destruct (Pos.compare_spec a b)
  end.

Ltac sf_order :=
  unfold SFleb, SFltb, SFeqb;
  repeat match goal with x : spec_float |- _ => destruct x end;
  cbn; try discriminate; try reflexivity;
  repeat match goal with s : bool |- _ => destruct s end; cbn;
  try discriminate; try reflexivity;
  cmp_cases; cbn; try discriminate; try reflexivity;
  intros; exfalso; subst; lia.

Lemma SFltb_trans x y z :
  SFltb x y = true -> SFltb y z = true -> SFltb x z = true.
Proof. sf_order. Qed.

Lemma SFleb_ltb_trans x y z :
  SFleb x y = true -> SFltb y z = true -> SFltb x z = true.
Proof. sf_order. Qed.

Lemma SFltb_irrefl x : SFltb x x = false.
Proof.
  unfold SFltb. destruct x as [s|s| |s m e]; cbn; try reflexivity;
    destruct s; cbn; try reflexivity;
    rewrite Z.compare_refl;
    change (Pos.compare_cont Eq m m) with (Pos.compare m m);
    rewrite Pos.compare_refl; reflexivity.
Qed.

Lemma ltb_trans a b c : (a <? b) = true -> (b <? c) = true -> (a <? c) = true.
Proof. rewrite !ltb_spec. apply SFltb_trans. Qed.

Lemma leb_ltb_trans a b c : (a <=? b) = true -> (b <? c) = true -> (a <? c) = true.
Proof. rewrite leb_spec, !ltb_spec. apply SFleb_ltb_trans. Qed.

Lemma ltb_irrefl a : (a <? a) = false.
Proof. rewrite ltb_spec. apply SFltb_irrefl. Qed.

Lemma SFleb_total x y :
  SFltb x y = false -> SFeqb x x = true -> SFeqb y y = true -> SFleb y x = true.
Proof. sf_order. Qed.

Lemma SFltb_below_infinity x y :
  SFltb x y = true -> SFltb x (S754_infinity false) = true.
Proof.
  unfold SFltb.
  destruct x as [s|s| |s m e], y as [s'|s'| |s' m' e']; cbn;
    try discriminate; try reflexivity;
    destruct s; try destruct s'; cbn; try discriminate; reflexivity.
Qed.

Lemma SFeqb_refl_above x y : SFltb x y = true -> SFeqb y y = true.
Proof.
  unfold SFltb, SFeqb.
  destruct y as [s|s| |s m e]; cbn;
    try (destruct x as [s'|s'| |s' m' e']; cbn; discriminate);
    try (destruct s; reflexivity); intros _.
  rewrite Z.compare_refl.
  change (Pos.compare_cont Eq m m) with (Pos.compare m m).
  rewrite Pos.compare_refl. destruct s; reflexivity.
Qed.

Lemma SFnonneg_eq x y :
  SFnonneg x = true -> SFnonneg y = true ->
  SFeqb x x = true -> SFeqb y y = true ->
  SFltb x y = false -> SFltb y x = false -> x = y.
Proof.
  unfold SFltb, SFeqb.
  destruct x as [s|s| |s m e], y as [s'|s'| |s' m' e']; cbn;
    try discriminate; try (destruct s; discriminate);
    destruct s; try discriminate; destruct s'; try discriminate; cbn;
    try reflexivity; intros _ _ _ _.
  change (Pos.compare_cont Eq m m') with (Pos.compare m m').
  change (Pos.compare_cont Eq m' m) with (Pos.compare m' m).
  destruct (Z.compare_spec e e'), (Z.compare_spec e' e); try lia; try discriminate;
    destruct (Pos.compare_spec m m'), (Pos.compare_spec m' m);
    try lia; try discriminate; intros; subst; reflexivity.
Qed.

Lemma leb_total x y :
  (x <? y) = false -> (x =? x) = true -> (y =? y) = true -> (y <=? x) = true.
Proof.
  rewrite ltb_spec, leb_spec, !FloatAxioms.eqb_spec. apply SFleb_total.
Qed.

Lemma ltb_below_infinity x y : (x <? y) = true -> (x <? infinity) = true.
Proof.
  rewrite (ltb_spec x y), (ltb_spec x infinity).
  change (Prim2SF infinity) with (S754_infinity false).
  apply SFltb_below_infinity.
Qed.

Lemma eqb_refl_above x y : (x <? y) = true -> (y =? y) = true.
Proof. rewrite ltb_spec, FloatAxioms.eqb_spec. apply SFeqb_refl_above. Qed.

Lemma nonneg_eq x y :
  nonneg x -> nonneg y -> (x =? x) = true -> (y =? y) = true ->
  (x <? y) = false -> (y <? x) = false -> x = y.
Proof.
  unfold nonneg. rewrite !ltb_spec, !FloatAxioms.eqb_spec. intros.
  apply Prim2SF_inj. now apply SFnonneg_eq.
Qed.

(** ** Binary64: digits and validity

    [Prim2SF] decodes a float into sign, mantissa and exponent, and the
    decoded number is valid: the mantissa has 53 binary digits, or fewer when
    the exponent is the least one, [-1074]. *)

Local Open Scope Z_scope.

Lemma digits2_bounds p :
  2 ^ (Zpos (digits2_pos p) - 1) <= Zpos p < 2 ^ Zpos (digits2_pos p).
Proof.
  induction p as [p IH|p IH|]; cbn [digits2_pos];
    [| |cbn; lia];
    rewrite Pos2Z.inj_succ;
    replace (Z.succ (Zpos (digits2_pos p)) - 1)
      with (Z.succ (Zpos (digits2_pos p) - 1)) by lia;
    rewrite !Z.pow_succ_r by lia; lia.
Qed.

Lemma digits2_unique p n :
  2 ^ (n - 1) <= Zpos p < 2 ^ n -> Zpos (digits2_pos p) = n.
Proof.
  intros [Hlo Hhi]. pose proof (digits2_bounds p) as [Hlo' Hhi'].
  assert (Hn : 0 < n).
  { destruct (Z_lt_le_dec 0 n) as [|Hle]; [assumption|].
    destruct (Z.eq_dec n 0) as [->|]; [cbn in Hhi; lia|].
    rewrite Z.pow_neg_r in Hhi by lia. lia. }
  destruct (Z.lt_trichotomy (Zpos (digits2_pos p)) n) as [Hlt | [Heq | Hgt]];
    [|assumption|].
  - assert (2 ^ Zpos (digits2_pos p) <= 2 ^ (n - 1))
      by (apply Z.pow_le_mono_r; lia).
    lia.
  - assert (2 ^ n <= 2 ^ (Zpos (digits2_pos p) - 1))
      by (apply Z.pow_le_mono_r; lia).
    lia.
Qed.

Lemma bounded_cases m e :
  bounded prec emax m e = true ->
  e <= 971 /\
  ((Zpos (digits2_pos m) = 53 /\ -1074 <= e) \/
   (e = -1074 /\ Zpos (digits2_pos m) <= 53)).
Proof.
  unfold bounded, canonical_mantissa, fexp, emin, prec, emax.
  rewrite andb_true_iff, Z.eqb_eq, Z.leb_le. lia.
Qed.

(** ** Binary64: the square root of a positive number

    [SFsqrt] scales the mantissa [m] of [m * 2^e] to the integer
    [n = m * 2^(e - 2e')] of 105 or 106 digits, takes the integer root [q] of
    [n], which has 53 digits, and rounds [q] up when the remainder exceeds
    [q], that is when the real root lies above [q + 1/2]. *)

Lemma sqrt_exp_bounds m e :
  bounded prec emax m e = true -> -589 <= sqrt_exp m e <= 459.
Proof.
  intros Hb. apply bounded_cases in Hb. destruct Hb as [He Hd].
  unfold sqrt_exp. rewrite Z.div2_div.
  pose proof (Z.div_mod (Zpos (digits2_pos m) + e + 1) 2 ltac:(lia)).
  pose proof (Z.mod_pos_bound (Zpos (digits2_pos m) + e + 1) 2 ltac:(lia)).
  lia.
Qed.

Lemma sqrt_arg_bounds m e :
  bounded prec emax m e = true ->
  0 < e - 2 * sqrt_exp m e /\ 2 ^ 104 <= sqrt_arg m e < 2 ^ 106.
Proof.
  intros Hb. apply bounded_cases in Hb. destruct Hb as [He Hd].
  pose proof (digits2_bounds m) as [Hlo Hhi].
  unfold sqrt_arg, sqrt_exp.
  set (d := Zpos (digits2_pos m)) in *.
  assert (Hd1 : 1 <= d) by (unfold d; lia).
  rewrite Z.div2_div.
  pose proof (Z.div_mod (d + e + 1) 2 ltac:(lia)) as Hdm.
  pose proof (Z.mod_pos_bound (d + e + 1) 2 ltac:(lia)) as Hmod.
  set (k := (d + e + 1) / 2) in *.
  set (s := e - 2 * (k - 53)).
  assert (Hs : d + s = 105 \/ d + s = 106) by (unfold s; lia).
  assert (Hspos : 0 < s) by (unfold s; lia).
  split; [exact Hspos|].
  assert (H1 : 2 ^ (d - 1) * 2 ^ s <= Zpos m * 2 ^ s)
    by (apply Z.mul_le_mono_nonneg_r; lia).
  assert (H2 : Zpos m * 2 ^ s < 2 ^ d * 2 ^ s)
    by (apply Z.mul_lt_mono_pos_r; lia).
  rewrite <- Z.pow_add_r in H1, H2 by lia.
  assert (2 ^ 104 <= 2 ^ (d - 1 + s)) by (apply Z.pow_le_mono_r; lia).
  assert (2 ^ (d + s) <= 2 ^ 106) by (apply Z.pow_le_mono_r; lia).
  lia.
Qed.

Lemma sqrt_quot_bounds n :
  2 ^ 104 <= n < 2 ^ 106 -> 2 ^ 52 <= Z.sqrt n < 2 ^ 53.
Proof.
  intros [Hlo Hhi].
  pose proof (Z.sqrt_spec n ltac:(lia)) as Hs. cbv zeta in Hs.
  pose proof (Z.sqrt_nonneg n) as H0.
  set (q := Z.sqrt n) in *.
  change (2 ^ 104) with (2 ^ 52 * 2 ^ 52) in Hlo.
  change (2 ^ 106) with (2 ^ 53 * 2 ^ 53) in Hhi.
  set (A := 2 ^ 52) in *. set (B := 2 ^ 53) in *.
  assert (0 < A) by (unfold A; lia). assert (0 < B) by (unfold B; lia).
  split; nia.
Qed.

Lemma Zdigits2_53 q : 2 ^ 52 <= q < 2 ^ 53 -> Zdigits2 q = 53.
Proof.
  intros H. destruct q as [|p|p]; try (cbn in H; lia).
  cbn [Zdigits2]. apply digits2_unique. exact H.
Qed.

(** A mantissa of 53 digits is not shifted. *)
Lemma shr_fexp_53 q e l :
  2 ^ 52 <= q < 2 ^ 53 -> -1074 <= e ->
  shr_fexp prec emax q e l = (shr_record_of_loc q l, e).
Proof.
  intros Hq He. unfold shr_fexp. rewrite (Zdigits2_53 q Hq).
  replace (fexp prec emax (53 + e) - e) with 0
    by (unfold fexp, emin, prec, emax; lia).
  reflexivity.
Qed.

Lemma finish_53 q e :
  2 ^ 52 <= q < 2 ^ 53 -> -1074 <= e <= 971 ->
  (let '(mrs, e'') := shr_fexp prec emax q e loc_Exact in
   match shr_m mrs with
   | 0 => S754_zero false
   | Zpos m =>
       if e'' <=? emax - prec then S754_finite false m e''
       else S754_infinity false
   | Zneg _ => S754_nan
   end) = S754_finite false (Z.to_pos q) e.
Proof.
  intros Hq He. rewrite shr_fexp_53 by lia. cbn [shr_record_of_loc shr_m].
  destruct q as [|p|p]; try (cbn in Hq; lia).
  replace (e <=? emax - prec) with true
    by (symmetry; apply Z.leb_le; unfold emax, prec; lia).
  reflexivity.
Qed.

(** Rounding up to [2^53] carries into the exponent. *)
Lemma finish_carry e :
  -1074 <= e < 971 ->
  (let '(mrs, e'') := shr_fexp prec emax (2 ^ 53) e loc_Exact in
   match shr_m mrs with
   | 0 => S754_zero false
   | Zpos m =>
       if e'' <=? emax - prec then S754_finite false m e''
       else S754_infinity false
   | Zneg _ => S754_nan
   end) = S754_finite false (Z.to_pos (2 ^ 52)) (e + 1).
Proof.
  intros He. unfold shr_fexp.
  change (Zdigits2 (2 ^ 53)) with 54.
  replace (fexp prec emax (54 + e) - e) with 1
    by (unfold fexp, emin, prec, emax; lia).
  cbn.
  replace (e + 1 <=? 971) with true by (symmetry; apply Z.leb_le; lia).
  reflexivity.
Qed.

Lemma binary_round_aux_53 q e l :
  2 ^ 52 <= q < 2 ^ 53 -> -1074 <= e < 971 ->
  binary_round_aux prec emax false q e l
  = if round_nearest_even q l =? q then S754_finite false (Z.to_pos q) e
    else round_up q e.
Proof.
  intros Hq He. unfold binary_round_aux. rewrite shr_fexp_53 by lia.
  replace (loc_of_shr_record (shr_record_of_loc q l)) with l
    by (destruct l as [|[| |]]; reflexivity).
  replace (shr_m (shr_record_of_loc q l)) with q
    by (destruct l as [|[| |]]; reflexivity).
  assert (Hr : round_nearest_even q l = q \/ round_nearest_even q l = q + 1).
  { destruct l as [|[| |]]; cbn; try destruct (Z.even q); auto. }
  destruct Hr as [-> | ->].
  - rewrite Z.eqb_refl. apply finish_53; lia.
  - replace (q + 1 =? q) with false by (symmetry; apply Z.eqb_neq; lia).
    unfold round_up. destruct (q + 1 =? 2 ^ 53) eqn:E.
    + apply Z.eqb_eq in E. rewrite E. apply finish_carry; lia.
    + apply Z.eqb_neq in E. apply finish_53; lia.
Qed.

(** The square root of a valid positive number, in closed form. *)
Lemma SFsqrt_finite m e :
  bounded prec emax m e = true ->
  SFsqrt prec emax (S754_finite false m e)
  = let n := sqrt_arg m e in
    let q := Z.sqrt n in
    if n - q * q <=? q then S754_finite false (Z.to_pos q) (sqrt_exp m e)
    else round_up q (sqrt_exp m e).
Proof.
  intros Hb.
  pose proof (sqrt_arg_bounds m e Hb) as [Hs Hn].
  pose proof (sqrt_quot_bounds _ Hn) as Hq.
  pose proof (sqrt_exp_bounds m e Hb) as Hk.
  pose proof (bounded_cases m e Hb) as [He Hd].
  cbv zeta. unfold SFsqrt, SFsqrt_core_binary.
  cbn [Zdigits2].
  assert (He' : Z.min (fexp prec emax (Z.div2 (Zpos (digits2_pos m) + e + 1)))
                      (Z.div2 e) = sqrt_exp m e).
  { unfold sqrt_exp, fexp, emin, prec, emax. rewrite !Z.div2_div.
    pose proof (Z.div_mod (Zpos (digits2_pos m) + e + 1) 2 ltac:(lia)).
    pose proof (Z.mod_pos_bound (Zpos (digits2_pos m) + e + 1) 2 ltac:(lia)).
    pose proof (Z.div_mod e 2 ltac:(lia)).
    pose proof (Z.mod_pos_bound e 2 ltac:(lia)).
    lia. }
  rewrite He'.
  replace (match e - 2 * sqrt_exp m e with
           | 0 => Zpos m
           | Zpos _ => IntDef.Z.shiftl (Zpos m) (e - 2 * sqrt_exp m e)
           | Zneg _ => 0
           end) with (sqrt_arg m e).
  2:{ unfold sqrt_arg. destruct (e - 2 * sqrt_exp m e) eqn:E; try lia.
      change IntDef.Z.shiftl with Z.shiftl.
      rewrite Z.shiftl_mul_pow2 by lia. reflexivity. }
  change IntDef.Z.sqrtrem with Z.sqrtrem.
  pose proof (Z.sqrtrem_spec (sqrt_arg m e) ltac:(lia)) as Hrem.
  pose proof (Z.sqrtrem_sqrt (sqrt_arg m e)) as Hfst.
  destruct (Z.sqrtrem (sqrt_arg m e)) as [q r]. cbn [fst] in Hfst. subst q.
  set (n := sqrt_arg m e) in *. set (q := Z.sqrt n) in *.
  destruct Hrem as [Hn' Hr].
  replace (n - q * q) with r by lia.
  rewrite binary_round_aux_53 by lia.
  destruct (r =? 0) eqn:E0.
  - apply Z.eqb_eq in E0. cbn [round_nearest_even]. rewrite Z.eqb_refl.
    replace (r <=? q) with true by (symmetry; apply Z.leb_le; lia).
    reflexivity.
  - destruct (r <=? q); cbn [round_nearest_even].
    + rewrite Z.eqb_refl. reflexivity.
    + replace (q + 1 =? q) with false by (symmetry; apply Z.eqb_neq; lia).
      reflexivity.
Qed.

Lemma SFsqrt_finite_shape m e :
  bounded prec emax m e = true ->
  exists m' e',
    SFsqrt prec emax (S754_finite false m e) = S754_finite false m' e'.
Proof.
  intros Hb. rewrite SFsqrt_finite by assumption. cbv zeta. unfold round_up.
  repeat match goal with |- context [if ?c then _ else _] => destruct c end;
    eexists; eexists; reflexivity.
Qed.

(** ** Binary64: the square root is monotone *)

Lemma SFleb_finite ma ea mb eb :
  SFleb (S754_finite false ma ea) (S754_finite false mb eb) = true
  <-> ea < eb \/ (ea = eb /\ Zpos ma <= Zpos mb).
Proof.
  unfold SFleb, SFcompare.
  change (Pos.compare_cont Eq ma mb) with (Pos.compare ma mb).
  destruct (Z.compare_spec ea eb); [destruct (Pos.compare_spec ma mb)| |];
    split; intros; try reflexivity; try discriminate; lia.
Qed.

Lemma SFsqrt_mono_finite m1 e1 m2 e2 :
  bounded prec emax m1 e1 = true -> bounded prec emax m2 e2 = true ->
  SFleb (S754_finite false m1 e1) (S754_finite false m2 e2) = true ->
  SFleb (SFsqrt prec emax (S754_finite false m1 e1))
        (SFsqrt prec emax (S754_finite false m2 e2)) = true.
Proof.
  intros Hb1 Hb2 Hle. apply SFleb_finite in Hle.
  rewrite !SFsqrt_finite by assumption. cbv zeta.
  pose proof (sqrt_arg_bounds m1 e1 Hb1) as [Hs1 Hn1].
  pose proof (sqrt_arg_bounds m2 e2 Hb2) as [Hs2 Hn2].
  pose proof (sqrt_quot_bounds _ Hn1) as Hq1.
  pose proof (sqrt_quot_bounds _ Hn2) as Hq2.
  pose proof (bounded_cases m1 e1 Hb1) as [He1 Hd1].
  pose proof (bounded_cases m2 e2 Hb2) as [He2 Hd2].
  pose proof (digits2_bounds m1) as [Hlo1 Hhi1].
  pose proof (digits2_bounds m2) as [Hlo2 Hhi2].
  (* the larger number has the larger scaled exponent *)
  assert (HE : sqrt_exp m1 e1 <= sqrt_exp m2 e2).
  { unfold sqrt_exp. rewrite !Z.div2_div.
    assert (Zpos (digits2_pos m1) + e1 <= Zpos (digits2_pos m2) + e2).
    { destruct Hle as [Hlt | [-> Hm]]; [lia|].
      destruct (Z_le_gt_dec (Zpos (digits2_pos m1)) (Zpos (digits2_pos m2)));
        [lia|].
      assert (2 ^ Zpos (digits2_pos m2) <= 2 ^ (Zpos (digits2_pos m1) - 1))
        by (apply Z.pow_le_mono_r; lia).
      lia. }
    assert ((Zpos (digits2_pos m1) + e1 + 1) / 2
            <= (Zpos (digits2_pos m2) + e2 + 1) / 2)
      by (apply Z.div_le_mono; lia).
    lia. }
  (* at equal scaled exponents, the larger scaled mantissa *)
  assert (HN : sqrt_exp m1 e1 = sqrt_exp m2 e2 ->
               sqrt_arg m1 e1 <= sqrt_arg m2 e2).
  { intros HEq. unfold sqrt_arg in *. rewrite <- HEq in *.
    set (E := sqrt_exp m1 e1) in *.
    destruct Hle as [Hlt | [-> Hm]].
    - replace (e2 - 2 * E) with ((e2 - e1) + (e1 - 2 * E)) by lia.
      rewrite Z.pow_add_r by lia.
      assert (Zpos m1 < 2 ^ 53).
      { assert (2 ^ Zpos (digits2_pos m1) <= 2 ^ 53)
          by (apply Z.pow_le_mono_r; lia).
        lia. }
      assert (2 ^ 52 <= Zpos m2).
      { assert (Zpos (digits2_pos m2) = 53) by lia.
        replace 52 with (Zpos (digits2_pos m2) - 1) by lia. lia. }
      assert (2 ^ 1 <= 2 ^ (e2 - e1)) by (apply Z.pow_le_mono_r; lia).
      assert (0 < 2 ^ (e1 - 2 * E)) by (apply Z.pow_pos_nonneg; lia).
      change (2 ^ 53) with (2 * 2 ^ 52) in *. change (2 ^ 1) with 2 in *.
      assert (Zpos m1 <= Zpos m2 * 2 ^ (e2 - e1)).
      { assert (2 ^ 52 * 2 <= Zpos m2 * 2 ^ (e2 - e1))
          by (apply Z.mul_le_mono_nonneg; lia).
        lia. }
      rewrite Z.mul_assoc. apply Z.mul_le_mono_nonneg_r; lia.
    - apply Z.mul_le_mono_nonneg_r; [apply Z.pow_nonneg; lia | lia]. }
  clear Hle Hd1 Hd2 Hlo1 Hlo2 Hhi1 Hhi2 Hs1 Hs2 Hb1 Hb2 He1 He2.
  assert (HQ : sqrt_exp m1 e1 = sqrt_exp m2 e2 ->
               Z.sqrt (sqrt_arg m1 e1) <= Z.sqrt (sqrt_arg m2 e2))
    by (intros HEq; apply Z.sqrt_le_mono; auto).
  set (n1 := sqrt_arg m1 e1) in *. set (n2 := sqrt_arg m2 e2) in *.
  set (E1 := sqrt_exp m1 e1) in *. set (E2 := sqrt_exp m2 e2) in *.
  set (q1 := Z.sqrt n1) in *. set (q2 := Z.sqrt n2) in *.
  clearbody n1 n2 E1 E2 q1 q2.
  unfold round_up.
  destruct (Z.leb_spec (n1 - q1 * q1) q1), (Z.leb_spec (n2 - q2 * q2) q2);
    repeat match goal with
    | |- context [?a =? ?b] => destruct (Z.eqb_spec a b)
    end;
    apply SFleb_finite; rewrite !Z2Pos.id by lia;
    (destruct (Z.eq_dec E1 E2) as [HEq|HEq]; [|lia]);
    specialize (HQ HEq); specialize (HN HEq);
    (destruct (Z.eq_dec q1 q2) as [Hqq|Hqq]; [subst q2|]); lia.
Qed.

Lemma SFleb_total_finite m1 e1 m2 e2 :
  SFltb (S754_finite false m1 e1) (S754_finite false m2 e2) = false ->
  SFleb (S754_finite false m2 e2) (S754_finite false m1 e1) = true.
Proof.
  unfold SFltb, SFleb, SFcompare.
  change (Pos.compare_cont Eq m1 m2) with (Pos.compare m1 m2).
  change (Pos.compare_cont Eq m2 m1) with (Pos.compare m2 m1).
  rewrite (Z.compare_antisym e1 e2), (Pos.compare_antisym m1 m2).
  destruct (e1 ?= e2), (m1 ?= m2)%positive; cbn; intros; congruence.
Qed.

Lemma SFltb_leb_finite m1 e1 m2 e2 :
  SFltb (S754_finite false m1 e1) (S754_finite false m2 e2) = true ->
  SFleb (S754_finite false m1 e1) (S754_finite false m2 e2) = true.
Proof.
  unfold SFltb, SFleb. destruct (SFcompare _ _) as [[| |]|]; congruence.
Qed.

Lemma SFleb_not_ltb x y : SFleb x y = true -> SFltb y x = false.
Proof.
  unfold SFleb, SFltb.
  destruct x as [s|s| |s m e], y as [s'|s'| |s' m' e']; cbn;
    try discriminate; try reflexivity;
    try (destruct s; cbn; try discriminate; try reflexivity);
    try (destruct s'; cbn; try discriminate; try reflexivity);
    change (Pos.compare_cont Eq m' m) with (Pos.compare m' m);
    change (Pos.compare_cont Eq m m') with (Pos.compare m m');
    rewrite (Z.compare_antisym e e'), (Pos.compare_antisym m m');
    destruct (e ?= e'), (m ?= m')%positive; cbn; intros; congruence.
Qed.

Lemma SFleb_antisym_finite m1 e1 m2 e2 :
  SFleb (S754_finite false m1 e1) (S754_finite false m2 e2) = true ->
  SFltb (S754_finite false m1 e1) (S754_finite false m2 e2) = false ->
  S754_finite false m1 e1 = S754_finite false m2 e2.
Proof.
  unfold SFleb, SFltb, SFcompare.
  change (Pos.compare_cont Eq m1 m2) with (Pos.compare m1 m2).
  destruct (Z.compare_spec e1 e2); [destruct (Pos.compare_spec m1 m2)| |];
    intros; try discriminate; congruence.
Qed.

(** [SFsqrt] never turns a comparison that fails into one that holds. *)
Lemma SFsqrt_ltb_false x y :
  valid_binary x = true -> valid_binary y = true ->
  SFltb x y = false ->
  SFltb (SFsqrt prec emax x) (SFsqrt prec emax y) = false.
Proof.
  intros Hx Hy H.
  destruct x as [sx|sx| |sx mx ex]; try reflexivity;
    try (destruct sx; try reflexivity);
    (destruct y as [sy|sy| |sy my ey];
     try (destruct sy); try reflexivity; try discriminate H);
    try (destruct (SFsqrt_finite_shape _ _ Hy) as (m' & e' & ->); reflexivity);
    try (destruct (SFsqrt_finite_shape _ _ Hx) as (m' & e' & ->); reflexivity).
  apply SFleb_not_ltb. apply SFsqrt_mono_finite; try assumption.
  now apply SFleb_total_finite.
Qed.

(** Two numbers whose roots are not separated have the same root. *)
Lemma SFsqrt_merge x y :
  valid_binary x = true -> valid_binary y = true ->
  SFnonneg x = true ->
  SFltb x y = true ->
  SFltb (SFsqrt prec emax x) (SFsqrt prec emax y) = false ->
  SFsqrt prec emax x = SFsqrt prec emax y.
Proof.
  intros Hx Hy Hs H.
  destruct x as [sx|sx| |sx mx ex]; try discriminate H;
    (destruct sx; try discriminate Hs);
    (destruct y as [sy|sy| |sy my ey];
     try (destruct sy); try discriminate H);
    try (destruct (SFsqrt_finite_shape _ _ Hy) as (m' & e' & E);
         rewrite E; discriminate);
    try (destruct (SFsqrt_finite_shape _ _ Hx) as (m' & e' & E);
         rewrite E; discriminate);
    try discriminate.
  pose proof (SFsqrt_mono_finite _ _ _ _ Hx Hy (SFltb_leb_finite _ _ _ _ H))
    as Hle.
  destruct (SFsqrt_finite_shape _ _ Hx) as (m1 & e1 & E1).
  destruct (SFsqrt_finite_shape _ _ Hy) as (m2 & e2 & E2).
  rewrite E1, E2 in *. now apply SFleb_antisym_finite.
Qed.

Lemma SFsqrt_below_infinity x :
  valid_binary x = true -> SFnonneg x = true ->
  SFltb x (S754_infinity false) = true ->
  SFltb (SFsqrt prec emax x) (S754_infinity false) = true.
Proof.
  intros Hx Hs H.
  destruct x as [sx|sx| |sx mx ex]; try discriminate H;
    (destruct sx; try discriminate Hs); try discriminate H; try reflexivity.
  destruct (SFsqrt_finite_shape _ _ Hx) as (m' & e' & ->). reflexivity.
Qed.

(** ** Binary64: signs *)

Lemma binary_round_aux_sign s m e l :
  signed_as s (binary_round_aux prec emax s m e l).
Proof.
  unfold binary_round_aux.
  destruct (shr_fexp prec emax m e l) as [mrs' e'].
  destruct (shr_fexp prec emax _ e' loc_Exact) as [mrs'' e''].
  destruct (shr_m mrs''); cbn [signed_as]; auto.
  destruct (e'' <=? emax - prec); cbn [signed_as]; auto.
Qed.

Lemma binary_round_sign s m e : signed_as s (binary_round prec emax s m e).
Proof.
  unfold binary_round. destruct (shl_align _ _ _). apply binary_round_aux_sign.
Qed.

Lemma signed_nonneg x : signed_as false x -> SFnonneg x = true.
Proof. destruct x; cbn; intros; subst; reflexivity. Qed.

Lemma SFmul_self_nonneg x : SFnonneg (SFmul prec emax x x) = true.
Proof.
  destruct x as [s|s| |s m e]; try (destruct s; reflexivity); try reflexivity.
  cbn [SFmul]. apply signed_nonneg. rewrite xorb_nilpotent.
  apply binary_round_aux_sign.
Qed.

Lemma SFadd_nonneg x y :
  SFnonneg x = true -> SFnonneg y = true ->
  SFnonneg (SFadd prec emax x y) = true.
Proof.
  destruct x as [sx|sx| |sx mx ex]; try (destruct sx; try discriminate);
    (destruct y as [sy|sy| |sy my ey]; try (destruct sy; try discriminate));
    try reflexivity; intros _ _.
  cbn [SFadd cond_Zopp].
  destruct (shl_align mx ex (Z.min ex ey)) as [mx' ex'].
  destruct (shl_align my ey (Z.min ex ey)) as [my' ey'].
  cbn [fst Z.add binary_normalize]. apply signed_nonneg, binary_round_sign.
Qed.

Lemma SFabs_nonneg x : SFnonneg (SFabs x) = true.
Proof. destruct x; reflexivity. Qed.

Lemma SFsqrt_nonneg x :
  SFnonneg x = true -> SFnonneg (SFsqrt prec emax x) = true.
Proof.
  destruct x as [s|s| |s m e]; try (destruct s; try discriminate);
    try reflexivity.
  intros _. cbn [SFsqrt]. destruct (SFsqrt_core_binary _ _ _ _) as [[mz ez] lz].
  apply signed_nonneg, binary_round_aux_sign.
Qed.

Lemma SFnonneg_not_below_zero x s :
  SFnonneg x = true -> SFltb x (S754_zero s) = false.
Proof.
  destruct x as [sx|sx| |sx m e]; try destruct sx; try discriminate; reflexivity.
Qed.

(** A number that is neither an infinity nor a NaN, minus itself, is [+0]. *)
Lemma SFsub_self x :
  SFltb (SFabs x) (S754_infinity false) = true ->
  SFsub prec emax x x = S754_zero false.
Proof.
  destruct x as [s|s| |s m e]; try discriminate; intros _.
  - destruct s; reflexivity.
  - cbn [SFsub]. rewrite Z.sub_diag. reflexivity.
Qed.

Lemma SFeqb_zero v :
  SFltb v (S754_zero false) = false -> SFltb (S754_zero false) v = false ->
  SFltb v (S754_infinity false) = true -> SFeqb v (S754_zero false) = true.
Proof.
  destruct v as [s|s| |s m e]; try destruct s; try discriminate; reflexivity.
Qed.

Lemma SFeqb_refl_below x y : SFltb x y = true -> SFeqb x x = true.
Proof.
  unfold SFltb, SFeqb.
  destruct x as [s|s| |s m e]; try discriminate; intros _; cbn;
    try (destruct s; reflexivity).
  rewrite Z.compare_refl.
  change (Pos.compare_cont Eq m m) with (Pos.compare m m).
  rewrite Pos.compare_refl. destruct s; reflexivity.
Qed.

(** ** Binary64: shifting a mantissa right *)

Lemma shr_1_m mrs :
  0 <= shr_m mrs -> shr_m (shr_1 mrs) = shr_m mrs / 2.
Proof.
  destruct mrs as [m r s]. cbn [shr_m]. intros Hm.
  destruct m as [|[p|p|]|p]; cbn [shr_1 shr_m]; try lia; try reflexivity.
  - rewrite Pos2Z.inj_xI. apply Z.div_unique with (r := 1); lia.
  - rewrite Pos2Z.inj_xO. apply Z.div_unique with (r := 0); lia.
Qed.

Lemma iter_pos_shr_m p : forall mrs,
  0 <= shr_m mrs ->
  shr_m (SpecFloat.iter_pos shr_1 p mrs) = shr_m mrs / 2 ^ Zpos p.
Proof.
  assert (Hnn : forall m k, 0 <= m -> 0 <= m / 2 ^ Zpos k).
  { intros m k Hm. apply Z.div_pos; [exact Hm | apply Z.pow_pos_nonneg; lia]. }
  induction p as [p IH|p IH|]; intros mrs Hm; cbn [SpecFloat.iter_pos].
  - pose proof (shr_1_m mrs Hm) as H1.
    assert (H1' : 0 <= shr_m (shr_1 mrs)) by (rewrite H1; apply Z.div_pos; lia).
    pose proof (IH _ H1') as H2.
    assert (H2' : 0 <= shr_m (SpecFloat.iter_pos shr_1 p (shr_1 mrs)))
      by (rewrite H2; now apply Hnn).
    rewrite (IH _ H2'), H2, H1.
    rewrite !Z.div_div by (try apply Z.pow_pos_nonneg; lia).
    f_equal. rewrite <- Z.pow_add_r by lia.
    rewrite <- (Z.pow_succ_r 2) by lia. f_equal. lia.
  - pose proof (IH _ Hm) as H2.
    assert (H2' : 0 <= shr_m (SpecFloat.iter_pos shr_1 p mrs))
      by (rewrite H2; now apply Hnn).
    rewrite (IH _ H2'), H2.
    rewrite !Z.div_div by (try apply Z.pow_pos_nonneg; lia).
    f_equal. rewrite <- Z.pow_add_r by lia. f_equal. lia.
  - rewrite shr_1_m by exact Hm. reflexivity.
Qed.

(** Shifting by [n] places divides the mantissa by [2^n] and adds [n] to
    the exponent; a shift by no place or less does nothing. *)
Lemma shr_m_e mrs e n :
  0 <= shr_m mrs ->
  shr_m (fst (shr mrs e n)) = shr_m mrs / 2 ^ Z.max n 0 /\
  snd (shr mrs e n) = e + Z.max n 0.
Proof.
  intros Hm. destruct n as [|p|p]; cbn [shr fst snd].
  - change (Z.max 0 0) with 0. rewrite Z.div_1_r. lia.
  - rewrite iter_pos_shr_m by exact Hm. rewrite Z.max_l by lia. split; reflexivity.
  - rewrite Z.max_r by lia. rewrite Z.div_1_r. lia.
Qed.

Lemma shr_fexp_m_e m e l :
  0 <= m ->
  let n := Z.max (fexp prec emax (Zdigits2 m + e) - e) 0 in
  shr_m (fst (shr_fexp prec emax m e l)) = m / 2 ^ n /\
  snd (shr_fexp prec emax m e l) = e + n.
Proof.
  intros Hm n. unfold shr_fexp.
  assert (Hrec : shr_m (shr_record_of_loc m l) = m)
    by (destruct l as [|[| |]]; reflexivity).
  pose proof (shr_m_e (shr_record_of_loc m l) e
                (fexp prec emax (Zdigits2 m + e) - e)) as H.
  rewrite Hrec in H. exact (H Hm).
Qed.

(** ** Binary64: rounding below a bound *)

Lemma Zdigits2_bounds a :
  0 < a -> 2 ^ (Zdigits2 a - 1) <= a < 2 ^ Zdigits2 a.
Proof.
  destruct a as [|p|p]; try lia. intros _. apply digits2_bounds.
Qed.

Lemma Zdigits2_le a b : 0 < a -> a <= b -> Zdigits2 a <= Zdigits2 b.
Proof.
  intros Ha Hab.
  pose proof (Zdigits2_bounds a Ha) as [Hlo _].
  pose proof (Zdigits2_bounds b ltac:(lia)) as [_ Hhi].
  destruct (Z_le_gt_dec (Zdigits2 a) (Zdigits2 b)) as [|Hgt]; [assumption|].
  assert (2 ^ Zdigits2 b <= 2 ^ (Zdigits2 a - 1)) by (apply Z.pow_le_mono_r; lia).
  lia.
Qed.

Lemma Zdigits2_shift a j : 0 < a -> 0 <= j -> Zdigits2 (a * 2 ^ j) = Zdigits2 a + j.
Proof.
  intros Ha Hj.
  pose proof (Zdigits2_bounds a Ha) as [Hlo Hhi].
  assert (Hd : 0 < Zdigits2 a) by (destruct a; cbn; lia).
  assert (Hp : 0 < 2 ^ j) by (apply Z.pow_pos_nonneg; lia).
  destruct (a * 2 ^ j) as [|p|p] eqn:E; try nia.
  cbn [Zdigits2]. apply digits2_unique. rewrite <- E.
  replace (Zdigits2 a + j - 1) with ((Zdigits2 a - 1) + j) by lia.
  rewrite !Z.pow_add_r by lia. nia.
Qed.

Lemma Zdigits2_nonneg a : 0 <= Zdigits2 a.
Proof. destruct a; cbn; lia. Qed.

Lemma round_nearest_even_bounds m l :
  m <= round_nearest_even m l <= m + 1.
Proof. destruct l as [|[| |]]; cbn; try destruct (Z.even m); lia. Qed.

(** Rounding a positive number that is below [K * 2^b], a bound that the
    format can hold at exponent [b]: the result is zero or a finite number
    that is not above the bound. *)
Lemma binary_round_aux_bound s N E K b :
  0 < N -> 0 < K -> E <= b -> b <= 971 ->
  fexp prec emax (Zdigits2 K + b) <= b ->
  N < K * 2 ^ (b - E) ->
  binary_round_aux prec emax s N E loc_Exact = S754_zero s \/
  exists m3 e3,
    binary_round_aux prec emax s N E loc_Exact = S754_finite s m3 e3 /\
    e3 <= b /\ Zpos m3 <= K * 2 ^ (b - e3).
Proof.
  intros HN HK HEb Hb Hfexp Hlt.
  assert (Hmono : forall d d', d <= d' -> fexp prec emax d <= fexp prec emax d')
    by (intros; unfold fexp; lia).
  unfold binary_round_aux.
  pose proof (shr_fexp_m_e N E loc_Exact ltac:(lia)) as [Hm1 He1]. cbv zeta in Hm1, He1.
  destruct (shr_fexp prec emax N E loc_Exact) as [mrs' e']. cbn [fst snd] in Hm1, He1.
  set (n1 := Z.max (fexp prec emax (Zdigits2 N + E) - E) 0) in *.
  assert (Hn1 : 0 <= n1) by (unfold n1; lia).
  (* the first shift stops at or below [b] *)
  assert (HdN : Zdigits2 N + E <= Zdigits2 K + b).
  { pose proof (Zdigits2_le N (K * 2 ^ (b - E)) HN ltac:(lia)) as H.
    rewrite Zdigits2_shift in H by lia. lia. }
  assert (He'b : e' <= b).
  { rewrite He1. unfold n1. pose proof (Hmono _ _ HdN). lia. }
  pose proof (round_nearest_even_bounds (shr_m mrs') (loc_of_shr_record mrs')) as Hr.
  set (m2 := round_nearest_even (shr_m mrs') (loc_of_shr_record mrs')) in *.
  assert (Hm1nn : 0 <= shr_m mrs')
    by (rewrite Hm1; apply Z.div_pos; [lia | apply Z.pow_pos_nonneg; lia]).
  assert (Hm1lt : shr_m mrs' < K * 2 ^ (b - e')).
  { rewrite Hm1. apply Z.div_lt_upper_bound; [apply Z.pow_pos_nonneg; lia|].
    replace (2 ^ n1 * (K * 2 ^ (b - e'))) with (K * 2 ^ (b - E)); [exact Hlt|].
    replace (b - E) with (n1 + (b - e')) by lia.
    rewrite Z.pow_add_r by lia. ring. }
  assert (Hm2 : 0 <= m2 <= K * 2 ^ (b - e')) by lia.
  pose proof (shr_fexp_m_e m2 e' loc_Exact ltac:(lia)) as [Hm3 He3]. cbv zeta in Hm3, He3.
  destruct (shr_fexp prec emax m2 e' loc_Exact) as [mrs'' e'']. cbn [fst snd] in Hm3, He3.
  set (n2 := Z.max (fexp prec emax (Zdigits2 m2 + e') - e') 0) in *.
  assert (Hn2 : 0 <= n2) by (unfold n2; lia).
  assert (He''b : e'' <= b).
  { rewrite He3. unfold n2.
    destruct (Z.eq_dec m2 0) as [->|Hne].
    - cbn [Zdigits2]. pose proof (Zdigits2_nonneg K).
      pose proof (Hmono (0 + e') (Zdigits2 K + b) ltac:(lia)). lia.
    - pose proof (Zdigits2_le m2 (K * 2 ^ (b - e')) ltac:(lia) ltac:(lia)) as H.
      rewrite Zdigits2_shift in H by lia.
      pose proof (Hmono (Zdigits2 m2 + e') (Zdigits2 K + b) ltac:(lia)). lia. }
  assert (Hm3le : shr_m mrs'' <= K * 2 ^ (b - e'')).
  { rewrite Hm3.
    replace (K * 2 ^ (b - e'')) with ((K * 2 ^ (b - e'') * 2 ^ n2) / 2 ^ n2)
      by (apply Z.div_mul; apply Z.pow_nonzero; lia).
    apply Z.div_le_mono; [apply Z.pow_pos_nonneg; lia|].
    replace (K * 2 ^ (b - e'') * 2 ^ n2) with (K * 2 ^ (b - e')); [lia|].
    replace (b - e') with ((b - e'') + n2) by lia.
    rewrite Z.pow_add_r by lia. ring. }
  assert (Hm3nn : 0 <= shr_m mrs'')
    by (rewrite Hm3; apply Z.div_pos; [lia | apply Z.pow_pos_nonneg; lia]).
  destruct (shr_m mrs'') as [|m3|m3]; [now left | right | lia].
  exists m3, e''.
  replace (e'' <=? emax - prec) with true
    by (symmetry; apply Z.leb_le; unfold emax, prec; lia).
  repeat split; assumption.
Qed.

(** ** Binary64: aligning two mantissas *)

Lemma shl_align_value m e e' :
  snd (shl_align m e e') = Z.min e e' /\
  Zpos (fst (shl_align m e e')) = Zpos m * 2 ^ (e - Z.min e e').
Proof.
  unfold shl_align. destruct (e' - e) as [|d|d] eqn:E; cbn [fst snd].
  - rewrite Z.min_l by lia. rewrite Z.sub_diag. lia.
  - rewrite Z.min_l by lia. rewrite Z.sub_diag. lia.
  - rewrite Z.min_r by lia. split; [reflexivity|].
    change (PosDef.Pos.iter xO m d) with (shift_pos d m).
    rewrite shift_pos_correct.
    change (Z.pow_pos 2 d) with (2 ^ Zpos d).
    replace (e - e') with (Zpos d) by lia. ring.
Qed.

Lemma shl_align_digits m e e' :
  Zpos (digits2_pos (fst (shl_align m e e'))) + snd (shl_align m e e')
  = Zpos (digits2_pos m) + e.
Proof.
  destruct (shl_align_value m e e') as [He Hm]. rewrite He.
  change (Zpos (digits2_pos (fst (shl_align m e e'))))
    with (Zdigits2 (Zpos (fst (shl_align m e e')))).
  rewrite Hm, Zdigits2_shift by lia. cbn [Zdigits2]. lia.
Qed.

(** ** Binary64: the magnitude of a rounded number *)

Lemma SFmag_le k k' x : k <= k' -> SFmag k x = true -> SFmag k' x = true.
Proof.
  intros Hk. destruct x as [s|s| |s m e]; cbn [SFmag]; try easy.
  rewrite !Z.leb_le. lia.
Qed.

Lemma binary_round_aux_mag s N E k :
  0 < N -> Zdigits2 N + E <= k -> -1074 <= k <= 971 ->
  SFmag (k + 1) (binary_round_aux prec emax s N E loc_Exact) = true.
Proof.
  intros HN Hd Hk.
  pose proof (Zdigits2_bounds N HN) as [_ Hhi].
  assert (Hd1 : 0 < Zdigits2 N) by (destruct N; cbn; lia).
  destruct (binary_round_aux_bound s N E 1 k) as [-> | (m3 & e3 & -> & He3 & Hm3)];
    try lia.
  - change (Zdigits2 1) with 1. unfold fexp, emin, prec, emax. lia.
  - rewrite Z.mul_1_l.
    assert (2 ^ Zdigits2 N <= 2 ^ (k - E)) by (apply Z.pow_le_mono_r; lia).
    lia.
  - reflexivity.
  - cbn [SFmag]. apply Z.leb_le. rewrite Z.mul_1_l in Hm3.
    pose proof (digits2_bounds m3) as [Hlo _].
    destruct (Z_le_gt_dec (Zpos (digits2_pos m3) + e3) (k + 1)) as [|Hgt];
      [assumption|].
    assert (2 ^ (k - e3 + 1) <= 2 ^ (Zpos (digits2_pos m3) - 1))
      by (apply Z.pow_le_mono_r; lia).
    rewrite Z.pow_add_r in H by lia. change (2 ^ 1) with 2 in H.
    assert (0 < 2 ^ (k - e3)) by (apply Z.pow_pos_nonneg; lia).
    lia.
Qed.

Lemma binary_round_mag s m e k :
  Zpos (digits2_pos m) + e <= k -> -1074 <= k <= 971 ->
  SFmag (k + 1) (binary_round prec emax s m e) = true.
Proof.
  intros Hd Hk. unfold binary_round.
  pose proof (shl_align_digits m e (fexp prec emax (Zpos (digits2_pos m) + e))) as H.
  destruct (shl_align m e _) as [mz ez]. cbn [fst snd] in H.
  apply binary_round_aux_mag; [lia | cbn [Zdigits2]; lia | exact Hk].
Qed.

Lemma binary_normalize_mag n e k :
  Z.abs n < 2 ^ (k - e) -> e <= k -> -1074 <= k <= 971 ->
  SFmag (k + 1) (binary_normalize prec emax n e false) = true.
Proof.
  intros Hn He Hk.
  assert (Hd : forall p, Zpos p < 2 ^ (k - e) -> Zpos (digits2_pos p) + e <= k).
  { intros p Hp. pose proof (digits2_bounds p) as [Hlo _].
    destruct (Z_le_gt_dec (Zpos (digits2_pos p) + e) k) as [|Hgt]; [assumption|].
    assert (2 ^ (k - e) <= 2 ^ (Zpos (digits2_pos p) - 1))
      by (apply Z.pow_le_mono_r; lia).
    lia. }
  destruct n as [|p|p]; cbn [binary_normalize]; [reflexivity| |];
    apply binary_round_mag; try exact Hk; apply Hd; lia.
Qed.

(** The aligned mantissa of a number below [2^k]. *)
Lemma aligned_below m e ez k :
  Zpos (digits2_pos m) + e <= k -> ez <= e ->
  Zpos (fst (shl_align m e ez)) < 2 ^ (k - ez).
Proof.
  intros Hd Hez. destruct (shl_align_value m e ez) as [_ ->].
  rewrite Z.min_r by lia.
  pose proof (digits2_bounds m) as [_ Hhi].
  assert (2 ^ Zpos (digits2_pos m) <= 2 ^ (k - e)) by (apply Z.pow_le_mono_r; lia).
  replace (k - ez) with ((k - e) + (e - ez)) by lia.
  rewrite Z.pow_add_r by lia.
  assert (0 < 2 ^ (e - ez)) by (apply Z.pow_pos_nonneg; lia).
  nia.
Qed.

Lemma SFmag_signed k (a b : Z) (sa sb : bool) e :
  0 < a < 2 ^ (k - e) -> 0 < b < 2 ^ (k - e) ->
  Z.abs (cond_Zopp sa a + cond_Zopp sb b) < 2 ^ (k + 1 - e) /\
  Z.abs (cond_Zopp sa a - cond_Zopp sb b) < 2 ^ (k + 1 - e).
Proof.
  intros Ha Hb.
  assert (Hk : 0 <= k - e).
  { destruct (Z_le_gt_dec 0 (k - e)); [assumption|].
    rewrite Z.pow_neg_r in Ha by lia. lia. }
  replace (k + 1 - e) with (Z.succ (k - e)) by lia.
  rewrite Z.pow_succ_r by lia.
  destruct sa, sb; cbn [cond_Zopp]; lia.
Qed.

Lemma SFadd_mag k x y :
  SFmag k x = true -> SFmag k y = true -> -1075 <= k <= 970 ->
  SFmag (k + 2) (SFadd prec emax x y) = true.
Proof.
  intros Hx Hy Hk.
  destruct x as [sx|sx| |sx mx ex]; try discriminate Hx;
    destruct y as [sy|sy| |sy my ey]; try discriminate Hy.
  - destruct sx, sy; reflexivity.
  - apply SFmag_le with k; [lia | exact Hy].
  - apply SFmag_le with k; [lia | exact Hx].
  - cbn [SFmag] in Hx, Hy. apply Z.leb_le in Hx, Hy. cbn [SFadd].
    change (IntDef.Z.min ex ey) with (Z.min ex ey). cbv zeta.
    replace (k + 2) with (k + 1 + 1) by lia.
    pose proof (aligned_below mx ex (Z.min ex ey) k Hx ltac:(lia)) as Ha.
    pose proof (aligned_below my ey (Z.min ex ey) k Hy ltac:(lia)) as Hb.
    apply binary_normalize_mag; [|lia|lia].
    apply (SFmag_signed k); lia.
Qed.

Lemma SFsub_mag k x y :
  SFmag k x = true -> SFmag k y = true -> -1075 <= k <= 970 ->
  SFmag (k + 2) (SFsub prec emax x y) = true.
Proof.
  intros Hx Hy Hk.
  destruct x as [sx|sx| |sx mx ex]; try discriminate Hx;
    destruct y as [sy|sy| |sy my ey]; try discriminate Hy.
  - destruct sx, sy; reflexivity.
  - apply SFmag_le with k; [lia | exact Hy].
  - apply SFmag_le with k; [lia | exact Hx].
  - cbn [SFmag] in Hx, Hy. apply Z.leb_le in Hx, Hy. cbn [SFsub].
    change (IntDef.Z.min ex ey) with (Z.min ex ey). cbv zeta.
    replace (k + 2) with (k + 1 + 1) by lia.
    pose proof (aligned_below mx ex (Z.min ex ey) k Hx ltac:(lia)) as Ha.
    pose proof (aligned_below my ey (Z.min ex ey) k Hy ltac:(lia)) as Hb.
    apply binary_normalize_mag; [|lia|lia].
    apply (SFmag_signed k); lia.
Qed.

Lemma SFmul_mag k x :
  SFmag k x = true -> -537 <= k <= 485 ->
  SFmag (2 * k + 1) (SFmul prec emax x x) = true.
Proof.
  intros Hx Hk.
  destruct x as [sx|sx| |sx mx ex]; try discriminate Hx; [reflexivity|].
  cbn [SFmag] in Hx. apply Z.leb_le in Hx. cbn [SFmul].
  apply binary_round_aux_mag; [lia| |lia].
  rewrite Pos2Z.inj_mul.
  pose proof (digits2_bounds mx) as [_ Hhi].
  assert (H : Zdigits2 (Zpos mx * Zpos mx)
              <= Zdigits2 (2 ^ Zpos (digits2_pos mx) * 2 ^ Zpos (digits2_pos mx) - 1)).
  { apply Zdigits2_le; nia. }
  assert (H' : Zdigits2 (2 ^ Zpos (digits2_pos mx) * 2 ^ Zpos (digits2_pos mx) - 1)
               <= 2 * Zpos (digits2_pos mx)).
  { rewrite <- Z.pow_add_r by lia.
    set (d := Zpos (digits2_pos mx) + Zpos (digits2_pos mx)).
    assert (Hp : 2 <= 2 ^ d)
      by (change 2 with (2 ^ 1) at 1; apply Z.pow_le_mono_r; lia).
    pose proof (Zdigits2_bounds (2 ^ d - 1) ltac:(lia)) as [Hlo _].
    destruct (Z_le_gt_dec (Zdigits2 (2 ^ d - 1)) d) as [|Hgt]; [lia|].
    assert (2 ^ d <= 2 ^ (Zdigits2 (2 ^ d - 1) - 1))
      by (apply Z.pow_le_mono_r; lia).
    lia. }
  lia.
Qed.

Lemma SFabs_mag k x : SFmag k x = true -> SFmag k (SFabs x) = true.
Proof. destruct x; cbn; easy. Qed.

Lemma SFmag_below_infinity k x :
  SFmag k x = true -> SFltb x (S754_infinity false) = true.
Proof. destruct x as [s|s| |s m e]; try discriminate; destruct s; reflexivity. Qed.

(** A valid number between 0 and [m * 2^e] has at most the magnitude of
    that bound. *)
Lemma SFmag_between x mb eb :
  valid_binary x = true ->
  SFleb (S754_zero false) x = true ->
  SFleb x (S754_finite false mb eb) = true ->
  SFmag (53 + eb) x = true.
Proof.
  intros Hv H0 H1.
  destruct x as [s|s| |s m e]; try reflexivity; try discriminate H0;
    (destruct s; [discriminate H0|]); [discriminate H1|].
  cbn [valid_binary] in Hv. apply bounded_cases in Hv.
  cbn [SFmag]. apply Z.leb_le.
  unfold SFleb, SFcompare in H1.
  destruct (Z.compare_spec e eb); try discriminate H1; lia.
Qed.

(** ** Binary64: rounding keeps a positive number positive *)

(** From the least exponent on, the shift to the format leaves a positive
    mantissa positive. *)
Lemma shr_fexp_pos m e l :
  0 < m -> -1074 <= e ->
  0 < shr_m (fst (shr_fexp prec emax m e l)) /\
  e <= snd (shr_fexp prec emax m e l) /\
  fexp prec emax (Zdigits2 m + e) <= snd (shr_fexp prec emax m e l).
Proof.
  intros Hm He.
  pose proof (shr_fexp_m_e m e l ltac:(lia)) as [Hm1 He1]. cbv zeta in Hm1, He1.
  rewrite Hm1, He1.
  pose proof (Zdigits2_bounds m Hm) as [Hlo _].
  assert (Hd : 0 < Zdigits2 m) by (destruct m; cbn; lia).
  set (n := Z.max (fexp prec emax (Zdigits2 m + e) - e) 0).
  assert (Hn : 0 <= n <= Zdigits2 m - 1)
    by (unfold n, fexp, emin, prec, emax; lia).
  split; [|lia].
  assert (H2 : 0 < 2 ^ n) by (apply Z.pow_pos_nonneg; lia).
  assert (2 ^ n <= 2 ^ (Zdigits2 m - 1)) by (apply Z.pow_le_mono_r; lia).
  apply Z.div_str_pos. lia.
Qed.

Lemma binary_round_aux_pos s N E :
  0 < N -> -1074 <= E ->
  binary_round_aux prec emax s N E loc_Exact = S754_infinity s \/
  exists m3 e3,
    binary_round_aux prec emax s N E loc_Exact = S754_finite s m3 e3 /\
    fexp prec emax (Zdigits2 N + E) <= e3.
Proof.
  intros HN HE. unfold binary_round_aux.
  pose proof (shr_fexp_pos N E loc_Exact HN HE) as (Hm1 & He1 & Hf1).
  destruct (shr_fexp prec emax N E loc_Exact) as [mrs' e']. cbn [fst snd] in *.
  pose proof (round_nearest_even_bounds (shr_m mrs') (loc_of_shr_record mrs')) as Hr.
  set (m2 := round_nearest_even (shr_m mrs') (loc_of_shr_record mrs')) in *.
  pose proof (shr_fexp_pos m2 e' loc_Exact ltac:(lia) ltac:(lia)) as (Hm3 & He3 & _).
  destruct (shr_fexp prec emax m2 e' loc_Exact) as [mrs'' e'']. cbn [fst snd] in *.
  destruct (shr_m mrs'') as [|m3|m3]; try lia.
  destruct (e'' <=? emax - prec); [right | now left].
  exists m3, e''. split; [reflexivity | lia].
Qed.

Lemma binary_round_pos s m e :
  -1074 <= e ->
  binary_round prec emax s m e = S754_infinity s \/
  exists m3 e3,
    binary_round prec emax s m e = S754_finite s m3 e3 /\
    fexp prec emax (Zpos (digits2_pos m) + e) <= e3.
Proof.
  intros He. unfold binary_round.
  pose proof (shl_align_digits m e (fexp prec emax (Zpos (digits2_pos m) + e))) as Hd.
  destruct (shl_align_value m e (fexp prec emax (Zpos (digits2_pos m) + e)))
    as [Hez _].
  destruct (shl_align m e _) as [mz ez]. cbn [fst snd] in Hd, Hez.
  destruct (binary_round_aux_pos s (Zpos mz) ez) as [H | (m3 & e3 & H & He3)];
    [lia | unfold fexp, emin, prec, emax in Hez; lia | now left | right].
  exists m3, e3. split; [exact H|]. cbn [Zdigits2] in He3.
  rewrite Hd in He3. exact He3.
Qed.

(** The sum or difference of two aligned mantissas, when it is not zero,
    rounds to a number that is not zero, of exponent at least
    [fexp] of its magnitude. *)
Lemma binary_normalize_pos n e :
  n <> 0 -> -1074 <= e ->
  (exists s, binary_normalize prec emax n e false = S754_infinity s) \/
  exists s m3 e3,
    binary_normalize prec emax n e false = S754_finite s m3 e3 /\
    fexp prec emax (Zdigits2 n + e) <= e3.
Proof.
  intros Hn He. destruct n as [|p|p]; [easy| |]; cbn [binary_normalize Zdigits2].
  - destruct (binary_round_pos false p e He) as [H | (m3 & e3 & H & H')];
      [left; now exists false | right; now exists false, m3, e3].
  - destruct (binary_round_pos true p e He) as [H | (m3 & e3 & H & H')];
      [left; now exists true | right; now exists true, m3, e3].
Qed.

(** ** Binary64: where a result is zero *)

(** The sum of two numbers that are not negative is zero only when both
    are zero. *)
Lemma SFadd_zero x y :
  valid_binary x = true -> valid_binary y = true ->
  SFnonneg x = true -> SFnonneg y = true ->
  SFeqb (SFadd prec emax x y) (S754_zero false) = true ->
  SFeqb x (S754_zero false) = true /\ SFeqb y (S754_zero false) = true.
Proof.
  intros Hvx Hvy Hx Hy.
  destruct x as [sx|sx| |sx mx ex]; try (destruct sx; try discriminate Hx);
    (destruct y as [sy|sy| |sy my ey]; try (destruct sy; try discriminate Hy));
    try discriminate; try (split; reflexivity).
  cbn [valid_binary] in Hvx, Hvy.
  apply bounded_cases in Hvx, Hvy.
  cbn [SFadd cond_Zopp]. change (IntDef.Z.min ex ey) with (Z.min ex ey). cbv zeta.
  set (n := Zpos (fst (shl_align mx ex (Z.min ex ey)))
            + Zpos (fst (shl_align my ey (Z.min ex ey)))).
  destruct (binary_normalize_pos n (Z.min ex ey))
    as [(s & ->) | (s & m3 & e3 & -> & _)];
    try (unfold n; lia); destruct s; discriminate.
Qed.

(** The square of a finite number of exponent [-537] or more is not zero. *)
Lemma SFmul_self_zero x :
  SFexp_from (-537) x = true ->
  SFeqb (SFmul prec emax x x) (S754_zero false) = true ->
  SFeqb x (S754_zero false) = true.
Proof.
  destruct x as [s|s| |s m e]; try (destruct s; discriminate); try discriminate;
    [reflexivity|].
  cbn [SFexp_from SFmul]. rewrite Z.leb_le. intros He.
  destruct (binary_round_aux_pos (xorb s s) (Zpos (m * m)) (e + e))
    as [-> | (m3 & e3 & -> & _)]; try lia;
    destruct (xorb s s); discriminate.
Qed.

Lemma SFabs_zero x :
  SFeqb (SFabs x) (S754_zero false) = true -> SFeqb x (S754_zero false) = true.
Proof. destruct x as [s|s| |s m e]; try destruct s; easy. Qed.

Lemma SFsqrt_zero x :
  valid_binary x = true ->
  SFeqb (SFsqrt prec emax x) (S754_zero false) = true ->
  SFeqb x (S754_zero false) = true.
Proof.
  intros Hv. destruct x as [s|s| |s m e]; try (destruct s; discriminate);
    try discriminate; [reflexivity|].
  destruct s; [discriminate|].
  destruct (SFsqrt_finite_shape _ _ Hv) as (m' & e' & ->). discriminate.
Qed.

(** ** Binary64: the difference with a normal number

    [x - t], for [t] a number of 53 digits at exponent [et]: the difference
    is zero only for [x = t], and otherwise it is not below [2^(et - 53)]
    in absolute value, so that its exponent is [et - 53] or more. *)
Lemma SFsub_normal x st mt et :
  valid_binary x = true ->
  bounded prec emax mt et = true -> Zpos (digits2_pos mt) = 53 ->
  (SFeqb (SFsub prec emax x (S754_finite st mt et)) (S754_zero false) = true ->
   x = S754_finite st mt et) /\
  SFexp_from (et - 53) (SFsub prec emax x (S754_finite st mt et)) = true.
Proof.
  intros Hv Hb Hd. apply bounded_cases in Hb.
  destruct x as [sx|sx| |sx mx ex]; try (destruct sx; split; easy);
    try (split; easy).
  { cbn [SFsub SFexp_from]. split; [destruct st; discriminate|].
    apply Z.leb_le. lia. }
  cbn [valid_binary] in Hv. apply bounded_cases in Hv.
  cbn [SFsub]. change (IntDef.Z.min ex et) with (Z.min ex et). cbv zeta.
  destruct (shl_align_value mx ex (Z.min ex et)) as [_ Hx].
  destruct (shl_align_value mt et (Z.min ex et)) as [_ Ht].
  replace (Z.min ex (Z.min ex et)) with (Z.min ex et) in Hx by lia.
  replace (Z.min et (Z.min ex et)) with (Z.min ex et) in Ht by lia.
  set (a := Zpos (fst (shl_align mx ex (Z.min ex et)))) in *.
  set (b := Zpos (fst (shl_align mt et (Z.min ex et)))) in *.
  pose proof (digits2_bounds mx) as [Hxlo Hxhi].
  pose proof (digits2_bounds mt) as [Htlo Hthi].
  rewrite Hd in Htlo, Hthi. change (53 - 1) with 52 in Htlo.
  assert (Hx53 : Zpos mx < 2 ^ 53).
  { assert (2 ^ Zpos (digits2_pos mx) <= 2 ^ 53) by (apply Z.pow_le_mono_r; lia).
    lia. }
  set (n := cond_Zopp sx a - cond_Zopp st b).
  destruct (Z.eq_dec n 0) as [Hn0 | Hn0].
  - (* the exact difference is zero *)
    split; [intros _ | rewrite Hn0; reflexivity].
    assert (Hab : sx = st /\ a = b)
      by (unfold n in Hn0; destruct sx, st; cbn [cond_Zopp] in Hn0;
          unfold a, b in *; split; try reflexivity; lia).
    destruct Hab as [-> Hab]. rewrite Hx, Ht in Hab.
    destruct (Z_le_gt_dec et ex) as [Hle | Hgt].
    + rewrite Z.min_r in Hab by lia. rewrite Z.sub_diag, Z.mul_1_r in Hab.
      assert (Hex : ex = et).
      { destruct (Z.eq_dec ex et) as [|Hne]; [assumption|exfalso].
        assert (Hdx : Zpos (digits2_pos mx) = 53) by lia.
        rewrite Hdx in Hxlo. change (53 - 1) with 52 in Hxlo.
        assert (2 ^ 1 <= 2 ^ (ex - et)) by (apply Z.pow_le_mono_r; lia).
        change (2 ^ 1) with 2 in *. nia. }
      subst ex. rewrite Z.sub_diag, Z.mul_1_r in Hab.
      injection Hab as ->. reflexivity.
    + exfalso. rewrite Z.min_l in Hab by lia.
      rewrite Z.sub_diag, Z.mul_1_r in Hab.
      assert (2 ^ 1 <= 2 ^ (et - ex)) by (apply Z.pow_le_mono_r; lia).
      change (2 ^ 1) with 2 in *. nia.
  - (* the exact difference is not zero *)
    split.
    + destruct (binary_normalize_pos n (Z.min ex et) Hn0 ltac:(lia))
        as [(s & ->) | (s & m3 & e3 & -> & _)]; destruct s; discriminate.
    + destruct (binary_normalize_pos n (Z.min ex et) Hn0 ltac:(lia))
        as [(s & ->) | (s & m3 & e3 & -> & He3)]; [reflexivity|].
      cbn [SFexp_from]. apply Z.leb_le.
      assert (Hdn : 0 < Zdigits2 n) by (destruct n; cbn; lia).
      destruct (Z_le_gt_dec (et - 1) ex) as [Hle | Hgt].
      * unfold fexp, emin, prec, emax in He3. lia.
      * (* [x] is at least four times smaller than [t] *)
        assert (Hmin : Z.min ex et = ex) by lia. rewrite Hmin in *.
        rewrite Z.sub_diag, Z.mul_1_r in Hx.
        assert (Hbig : 2 ^ (51 + (et - ex)) <= Z.abs n).
        { assert (Hp : 2 ^ 2 <= 2 ^ (et - ex)) by (apply Z.pow_le_mono_r; lia).
          change (2 ^ 2) with 4 in Hp.
          rewrite Z.pow_add_r by lia.
          assert (Z.abs n >= b - a)
            by (unfold n; destruct sx, st; cbn [cond_Zopp]; lia).
          change (2 ^ 51) with 2251799813685248.
          change (2 ^ 52) with 4503599627370496 in Htlo.
          change (2 ^ 53) with 9007199254740992 in Hx53.
          nia. }
        assert (Hdig : 52 + (et - ex) <= Zdigits2 n).
        { assert (Hdabs : Zdigits2 (Z.abs n) = Zdigits2 n) by (destruct n; reflexivity).
          rewrite <- Hdabs.
          pose proof (Zdigits2_bounds (Z.abs n) ltac:(lia)) as [_ Hhi].
          destruct (Z_le_gt_dec (52 + (et - ex)) (Zdigits2 (Z.abs n))) as [|Hlt];
            [assumption|exfalso].
          assert (2 ^ Zdigits2 (Z.abs n) <= 2 ^ (51 + (et - ex)))
            by (apply Z.pow_le_mono_r; [lia|];
                pose proof (Zdigits2_nonneg (Z.abs n)); lia).
          lia. }
        unfold fexp, emin, prec, emax in He3. lia.
Qed.

Lemma SFexp_from_le k k' x : k' <= k -> SFexp_from k x = true -> SFexp_from k' x = true.
Proof.
  intros Hk. destruct x as [s|s| |s m e]; cbn [SFexp_from]; try easy.
  rewrite !Z.leb_le. lia.
Qed.

(** ** Binary64: the product by a number below one *)

(** The product of a positive normal number [K * 2^b] by a number of
    absolute value below one is zero or a finite number that is not above
    [K * 2^b] in absolute value. *)
Lemma SFmul_fraction K b u :
  Zpos (digits2_pos K) = 53 -> -1074 <= b <= 971 ->
  SFmag 0 u = true -> SFleb (S754_zero false) u = true ->
  SFleb (S754_zero false) (SFmul prec emax (S754_finite false K b) u) = true /\
  SFleb (SFmul prec emax (S754_finite false K b) u) (S754_finite false K b) = true.
Proof.
  intros HK Hb Hu Hs.
  destruct u as [s|s| |s m e]; try discriminate Hu;
    [destruct s; split; reflexivity|].
  destruct s; [discriminate Hs|].
  cbn [SFmag] in Hu. apply Z.leb_le in Hu. cbn [SFmul xorb].
  pose proof (digits2_bounds m) as [_ Hhi].
  assert (Hd : 0 < Zpos (digits2_pos m)) by lia.
  destruct (binary_round_aux_bound false (Zpos (K * m)) (b + e) (Zpos K) b)
    as [-> | (m3 & e3 & -> & He3 & Hm3)]; try lia.
  - cbn [Zdigits2]. rewrite HK. unfold fexp, emin, prec, emax. lia.
  - rewrite Pos2Z.inj_mul. apply Z.mul_lt_mono_pos_l; [lia|].
    assert (2 ^ Zpos (digits2_pos m) <= 2 ^ (b - (b + e)))
      by (apply Z.pow_le_mono_r; lia).
    lia.
  - split; reflexivity.
  - split; [reflexivity|]. apply SFleb_finite.
    destruct (Z.eq_dec e3 b) as [->|]; [right | left; lia].
    split; [reflexivity|]. rewrite Z.sub_diag in Hm3. lia.
Qed.

Lemma SFltb_finite ma ea mb eb :
  SFltb (S754_finite false ma ea) (S754_finite false mb eb) = true
  <-> ea < eb \/ (ea = eb /\ Zpos ma < Zpos mb).
Proof.
  unfold SFltb, SFcompare.
  change (Pos.compare_cont Eq ma mb) with (Pos.compare ma mb).
  destruct (Z.compare_spec ea eb); [destruct (Pos.compare_spec ma mb)| |];
    split; intros; try reflexivity; try discriminate; lia.
Qed.

(** A valid number from zero on and below one has magnitude 0 at most. *)
Lemma SFmag_below_one u :
  valid_binary u = true ->
  SFleb (S754_zero false) u = true ->
  SFltb u (S754_finite false 4503599627370496 (-52)) = true ->
  SFmag 0 u = true.
Proof.
  intros Hv H0 H1.
  destruct u as [s|s| |s m e]; try discriminate H0; try reflexivity;
    (destruct s; try discriminate H0); try discriminate H1.
  cbn [valid_binary] in Hv. apply bounded_cases in Hv.
  cbn [SFmag]. apply Z.leb_le. apply SFltb_finite in H1.
  pose proof (digits2_bounds m) as [Hlo _].
  destruct H1 as [H1 | [-> H1]]; [lia|].
  destruct Hv as [_ [[Hd _] | [Hd _]]]; [|lia].
  rewrite Hd in Hlo. change (2 ^ (53 - 1)) with 4503599627370496 in Hlo. lia.
Qed.

Local Close Scope Z_scope.

(** ** Floats: what the scans use *)

Lemma sqrt_ltb_false x y : (x <? y) = false -> (sqrt x <? sqrt y) = false.
Proof.
  rewrite !ltb_spec, !sqrt_spec. apply SFsqrt_ltb_false; apply Prim2SF_valid.
Qed.

Lemma sqrt_merge x y :
  nonneg x -> (x <? y) = true -> (sqrt x <? sqrt y) = false -> sqrt x = sqrt y.
Proof.
  unfold nonneg. rewrite !ltb_spec, !sqrt_spec. intros Hs H H'.
  apply Prim2SF_inj. rewrite !sqrt_spec.
  apply SFsqrt_merge; try apply Prim2SF_valid; assumption.
Qed.

Lemma sqrt_below_infinity x :
  nonneg x -> (x <? infinity) = true -> (sqrt x <? infinity) = true.
Proof.
  unfold nonneg.
  rewrite (ltb_spec x infinity), (ltb_spec (sqrt x) infinity), sqrt_spec.
  change (Prim2SF infinity) with (S754_infinity false).
  apply SFsqrt_below_infinity. apply Prim2SF_valid.
Qed.

Lemma mul_self_nonneg x : nonneg (x * x).
Proof. unfold nonneg. rewrite mul_spec. apply SFmul_self_nonneg. Qed.

Lemma add_nonneg x y : nonneg x -> nonneg y -> nonneg (x + y).
Proof. unfold nonneg. rewrite add_spec. apply SFadd_nonneg. Qed.

Lemma abs_nonneg x : nonneg (abs x).
Proof. unfold nonneg. rewrite abs_spec. apply SFabs_nonneg. Qed.

Lemma sqrt_nonneg x : nonneg x -> nonneg (sqrt x).
Proof. unfold nonneg. rewrite sqrt_spec. apply SFsqrt_nonneg. Qed.

Lemma nonneg_not_below_zero x : nonneg x -> (x <? 0) = false.
Proof.
  unfold nonneg. intros H. rewrite (ltb_spec x 0).
  change (Prim2SF 0) with (S754_zero false).
  now apply SFnonneg_not_below_zero.
Qed.

Lemma sub_self x : isfinite x = true -> x - x = 0.
Proof.
  unfold isfinite. rewrite (ltb_spec (abs x) infinity), abs_spec. intros H.
  apply Prim2SF_inj. rewrite sub_spec.
  change (Prim2SF 0) with (S754_zero false).
  now apply SFsub_self.
Qed.

Lemma eqb_zero v :
  (v <? 0) = false -> (0 <? v) = false -> (v <? infinity) = true ->
  (v =? 0) = true.
Proof.
  rewrite (ltb_spec v 0), (ltb_spec 0 v), (ltb_spec v infinity),
    (FloatAxioms.eqb_spec v 0).
  change (Prim2SF 0) with (S754_zero false).
  change (Prim2SF infinity) with (S754_infinity false).
  apply SFeqb_zero.
Qed.

Lemma eqb_refl_below x y : (x <? y) = true -> (x =? x) = true.
Proof.
  rewrite ltb_spec, FloatAxioms.eqb_spec. apply SFeqb_refl_below.
Qed.

(** ** Floats: magnitudes in the coordinate domain *)

Lemma Prim2SF_500 : Prim2SF 500 = S754_finite false 8796093022208000 (-44).
Proof. reflexivity. Qed.

Lemma Prim2SF_1000 : Prim2SF 1000 = S754_finite false 8796093022208000 (-43).
Proof. reflexivity. Qed.

Lemma in_domain_mag x : in_domain x = true -> SFmag 10 (Prim2SF x) = true.
Proof.
  unfold in_domain. rewrite andb_true_iff, (leb_spec 0 x), (leb_spec x 1000).
  rewrite Prim2SF_1000. change (Prim2SF 0) with (S754_zero false).
  intros [H0 H1].
  exact (SFmag_between _ _ _ (Prim2SF_valid x) H0 H1).
Qed.

Lemma sub_mag k x y :
  SFmag k (Prim2SF x) = true -> SFmag k (Prim2SF y) = true ->
  (-1075 <= k <= 970)%Z -> SFmag (k + 2) (Prim2SF (x - y)) = true.
Proof. rewrite sub_spec. apply SFsub_mag. Qed.

Lemma add_mag k x y :
  SFmag k (Prim2SF x) = true -> SFmag k (Prim2SF y) = true ->
  (-1075 <= k <= 970)%Z -> SFmag (k + 2) (Prim2SF (x + y)) = true.
Proof. rewrite add_spec. apply SFadd_mag. Qed.

Lemma mul_self_mag k x :
  SFmag k (Prim2SF x) = true -> (-537 <= k <= 485)%Z ->
  SFmag (2 * k + 1) (Prim2SF (x * x)) = true.
Proof. rewrite mul_spec. apply SFmul_mag. Qed.

Lemma abs_mag k x : SFmag k (Prim2SF x) = true -> SFmag k (Prim2SF (abs x)) = true.
Proof. rewrite abs_spec. apply SFabs_mag. Qed.

Lemma mag_below_infinity k x :
  SFmag k (Prim2SF x) = true -> (x <? infinity) = true.
Proof.
  rewrite (ltb_spec x infinity). change (Prim2SF infinity) with (S754_infinity false).
  apply SFmag_below_infinity.
Qed.

Lemma nonneg_isfinite x : nonneg x -> (x <? infinity) = true -> isfinite x = true.
Proof.
  unfold nonneg, isfinite.
  rewrite (ltb_spec x infinity), (ltb_spec (abs x) infinity), abs_spec.
  change (Prim2SF infinity) with (S754_infinity false).
  destruct (Prim2SF x) as [s|s| |s m e]; try destruct s; easy.
Qed.

(** In the domain a coordinate difference is below [2^12] in absolute
    value and its square below [2^25]. *)
Lemma domain_difference x t :
  in_domain x = true -> in_domain t = true ->
  SFmag 12 (Prim2SF (x - t)) = true.
Proof.
  intros Hx Ht. apply (sub_mag 10); try apply in_domain_mag; try assumption. lia.
Qed.

Lemma domain_square x t :
  in_domain x = true -> in_domain t = true ->
  SFmag 25 (Prim2SF ((x - t) * (x - t))) = true.
Proof.
  intros Hx Ht. apply (mul_self_mag 12); [now apply domain_difference | lia].
Qed.

Lemma dist_squared_2d_domain target p :
  in_domain2 p = true -> in_domain2 target = true ->
  (Py2D.dist_squared target p <? infinity) = true.
Proof.
  destruct p as [x y], target as [t0 t1]. cbn [in_domain2].
  rewrite !andb_true_iff. intros [Hx Hy] [H0 H1].
  unfold Py2D.dist_squared. cbn [fst snd].
  apply (mag_below_infinity 27), (add_mag 25); try now apply domain_square. lia.
Qed.

Lemma dist_squared_3d_domain target p :
  in_domain3 p = true -> in_domain3 target = true ->
  (Py3D.dist_squared target p <? infinity) = true.
Proof.
  destruct p as [[x y] z], target as [[t0 t1] t2]. cbn [in_domain3].
  rewrite !andb_true_iff. intros [[Hx Hy] Hz] [[H0 H1] H2].
  unfold Py3D.dist_squared.
  apply (mag_below_infinity 29), (add_mag 27);
    [|apply SFmag_le with 25%Z; [lia | now apply domain_square] | lia].
  apply (add_mag 25); try now apply domain_square. lia.
Qed.

Lemma dist_manhattan_domain target p :
  in_domain3 p = true -> in_domain3 target = true ->
  (Py3D.dist_manhattan target p <? infinity) = true.
Proof.
  destruct p as [[x y] z], target as [[t0 t1] t2]. cbn [in_domain3].
  rewrite !andb_true_iff. intros [[Hx Hy] Hz] [[H0 H1] H2].
  unfold Py3D.dist_manhattan.
  apply (mag_below_infinity 16), (add_mag 14);
    [|apply SFmag_le with 12%Z; [lia | now apply abs_mag, domain_difference] | lia].
  apply (add_mag 12); try now apply abs_mag, domain_difference. lia.
Qed.

(** ** Floats: where a value is zero *)

Lemma add_zero a b :
  nonneg a -> nonneg b -> (a + b =? 0) = true ->
  (a =? 0) = true /\ (b =? 0) = true.
Proof.
  unfold nonneg.
  rewrite (FloatAxioms.eqb_spec (a + b) 0), (FloatAxioms.eqb_spec a 0),
    (FloatAxioms.eqb_spec b 0), add_spec.
  change (Prim2SF 0) with (S754_zero false).
  apply SFadd_zero; apply Prim2SF_valid.
Qed.

Lemma sqrt_zero v : (sqrt v =? 0) = true -> (v =? 0) = true.
Proof.
  rewrite (FloatAxioms.eqb_spec (sqrt v) 0), (FloatAxioms.eqb_spec v 0), sqrt_spec.
  change (Prim2SF 0) with (S754_zero false).
  apply SFsqrt_zero, Prim2SF_valid.
Qed.

(** A coordinate at no distance of 500 is 500: the difference is zero only
    there, and elsewhere it is at least [2^-44] in absolute value, with a
    square that is not zero. *)
Lemma sub_500_zero x : (x - 500 =? 0) = true -> x = 500.
Proof.
  rewrite (FloatAxioms.eqb_spec (x - 500) 0), sub_spec, Prim2SF_500.
  change (Prim2SF 0) with (S754_zero false).
  intros H. apply Prim2SF_inj. rewrite Prim2SF_500.
  now apply (SFsub_normal (Prim2SF x) false 8796093022208000 (-44)
               (Prim2SF_valid x)).
Qed.

Lemma abs_500_zero x : (abs (x - 500) =? 0) = true -> x = 500.
Proof.
  intros H. apply sub_500_zero. revert H.
  rewrite (FloatAxioms.eqb_spec (abs (x - 500)) 0),
    (FloatAxioms.eqb_spec (x - 500) 0), abs_spec.
  change (Prim2SF 0) with (S754_zero false). apply SFabs_zero.
Qed.

Lemma square_500_zero x : ((x - 500) * (x - 500) =? 0) = true -> x = 500.
Proof.
  intros H. apply sub_500_zero. revert H.
  rewrite (FloatAxioms.eqb_spec ((x - 500) * (x - 500)) 0),
    (FloatAxioms.eqb_spec (x - 500) 0), mul_spec.
  change (Prim2SF 0) with (S754_zero false).
  apply SFmul_self_zero. rewrite sub_spec, Prim2SF_500.
  apply SFexp_from_le with (-44 - 53)%Z; [lia|].
  now apply (SFsub_normal (Prim2SF x) false 8796093022208000 (-44)
               (Prim2SF_valid x)).
Qed.

(** [random.uniform(0, 1000)]: from a draw of [random()] in [0, 1) the
    coordinate [0 + (1000 - 0) * random()] is in the domain. *)
Lemma uniform_0_1000_domain u :
  (0 <=? u) = true -> (u <? 1) = true ->
  in_domain (0 + (1000 - 0) * u) = true.
Proof.
  intros H0 H1. unfold in_domain.
  change (1000 - 0) with 1000.
  rewrite (leb_spec 0 u) in H0. rewrite (ltb_spec u 1) in H1.
  rewrite (leb_spec 0 (0 + 1000 * u)), (leb_spec (0 + 1000 * u) 1000),
    add_spec, mul_spec, Prim2SF_1000.
  change (Prim2SF 0) with (S754_zero false) in *.
  change (Prim2SF 1) with (S754_finite false 4503599627370496 (-52)) in H1.
  pose proof (SFmag_below_one _ (Prim2SF_valid u) H0 H1) as Hm.
  destruct (SFmul_fraction 8796093022208000 (-43) (Prim2SF u)
              eq_refl ltac:(lia) Hm H0) as [Hlo Hhi].
  unfold SF64mul, SF64add.
  destruct (SFmul prec emax (S754_finite false 8796093022208000 (-43)) (Prim2SF u))
    as [s|s| |s m e]; try discriminate Hlo; try discriminate Hhi;
    (destruct s; try discriminate Hlo; try discriminate Hhi).
  - reflexivity.
  - reflexivity.
  - cbn [SFadd]. now rewrite Hlo, Hhi.
Qed.

(** ** What the scan returns *)

Section ScanOrder.
Context {P : Type}.
Variable value : P -> float.

(** Nothing scanned beats the best value. *)
Lemma scan_lower_bound l : forall st q,
  In q l -> (value q <? snd (scan value l st)) = false.
Proof.
  induction l as [|x l IH] using rev_ind; intros st q Hq; [destruct Hq|].
  rewrite scan_snoc. unfold scan_step.
  apply in_app_or in Hq.
  destruct (value x <? snd (scan value l st)) eqn:E; cbn [snd].
  - destruct Hq as [Hq | [<- | []]]; [|apply ltb_irrefl].
    destruct (value q <? value x) eqn:E'; [|reflexivity].
    rewrite <- (IH st q Hq). symmetry. now apply ltb_trans with (value x).
  - destruct Hq as [Hq | [<- | []]]; [now apply IH | exact E].
Qed.

Lemma scan_earliest l : forall m0 p m,
  scan value l (None, m0) = (Some p, m) -> earliest_minimum value l p m.
Proof.
  induction l as [|x l IH] using rev_ind; intros m0 p m H; [discriminate|].
  rewrite scan_snoc in H. unfold scan_step in H.
  destruct (value x <? snd (scan value l (None, m0))) eqn:E.
  - injection H as <- <-. exists l, []. repeat split.
    + intros q Hq. destruct (value q <=? value x) eqn:E'; [|reflexivity].
      rewrite <- (scan_lower_bound l (None, m0) q Hq). symmetry.
      now apply leb_ltb_trans with (value x).
    + intros q [].
  - rewrite H in E. cbn [snd] in E.
    destruct (IH m0 p m H) as (l1 & l2 & -> & -> & H1 & H2).
    exists l1, (l2 ++ [x]). repeat split.
    + now rewrite <- app_assoc.
    + exact H1.
    + intros q Hq. apply in_app_or in Hq. destruct Hq as [Hq | [<- | []]];
        [now apply H2 | exact E].
Qed.

(** [None] is returned only when no point has a value below the initial one. *)
Lemma scan_none l : forall m0 m,
  scan value l (None, m0) = (None, m) ->
  m = m0 /\ forall q, In q l -> (value q <? m0) = false.
Proof.
  intros m0 m H.
  destruct (scan_value_cases value l None m0) as [H' | (p & _ & H')];
    rewrite H' in H; [|discriminate].
  injection H as <-. split; [reflexivity|].
  intros q Hq. rewrite <- (scan_lower_bound l (None, m0) q Hq), H'. reflexivity.
Qed.
End ScanOrder.

(** What a scan returns has a value below the initial one. *)
Lemma scan_below_initial {P : Type} (value : P -> float) l : forall m0,
  scan value l (None, m0) = (None, m0) \/
  exists p m, scan value l (None, m0) = (Some p, m) /\ (m <? m0) = true.
Proof.
  induction l as [|x l IH] using rev_ind; intros m0; [now left|].
  rewrite scan_snoc. unfold scan_step.
  destruct (IH m0) as [H | (p & m & H & Hm)]; rewrite H; cbn [snd].
  - destruct (value x <? m0) eqn:E; [|now left].
    right. now exists x, (value x).
  - right. destruct (value x <? m) eqn:E.
    + exists x, (value x). split; [reflexivity|].
      now apply ltb_trans with m.
    + now exists p, m.
Qed.

Lemma scan_ext {P : Type} (v1 v2 : P -> float) :
  (forall p, v1 p = v2 p) ->
  forall l st, scan v1 l st = scan v2 l st.
Proof.
  intros Hv. apply fold_left_pointwise. intros st p.
  unfold scan_step. now rewrite Hv.
Qed.

(** The best square root is the square root of the best value. *)
Lemma scan_sqrt_value {P : Type} (v : P -> float) l :
  (forall p, nonneg (v p)) ->
  forall c1 c2 m,
    snd (scan (fun p => sqrt (v p)) l (c1, sqrt m))
    = sqrt (snd (scan v l (c2, m))).
Proof.
  intros Hv. induction l as [|a l IH]; intros c1 c2 m; [reflexivity|].
  rewrite !scan_cons. unfold scan_step. cbn [snd].
  destruct (v a <? m) eqn:E.
  - destruct (sqrt (v a) <? sqrt m) eqn:E'; [apply IH|].
    rewrite <- (sqrt_merge (v a) m (Hv a) E E'). apply IH.
  - rewrite (sqrt_ltb_false _ _ E). apply IH.
Qed.

Lemma scan_sqrt_point {P : Type} (v : P -> float) l :
  (forall p, nonneg (v p)) ->
  roots_distinct (map v l) ->
  fst (scan (fun p => sqrt (v p)) l (None, infinity))
  = fst (scan v l (None, infinity)).
Proof.
  intros Hv Hd. apply scan_agree.
  - intros p _. destruct (v p <? infinity) eqn:E.
    + now apply sqrt_below_infinity.
    + apply (sqrt_ltb_false _ _ E).
  - intros p q Hp Hq. destruct (v p <? v q) eqn:E.
    + destruct (sqrt (v p) <? sqrt (v q)) eqn:E'; [reflexivity|].
      exfalso. apply (Hd (v p) (v q)); try (now apply in_map); [exact E|].
      now apply sqrt_merge.
    + now apply sqrt_ltb_false.
Qed.

(** A point of value zero that is the only one of value zero is returned. *)
Lemma scan_zero {P : Type} (value : P -> float) l t :
  (forall p, nonneg (value p)) ->
  value t = 0 -> In t l ->
  (forall q, In q l -> (value q =? 0) = true -> q = t) ->
  scan value l (None, infinity) = (Some t, 0).
Proof.
  intros Hv Ht Hin Honly.
  pose proof (scan_lower_bound value l (None, infinity) t Hin) as Hlow.
  rewrite Ht in Hlow.
  destruct (scan_below_initial value l infinity) as [H | (p & m & H & Hm)];
    rewrite H in Hlow |- *; cbn [snd] in Hlow; [discriminate Hlow|].
  destruct (scan_value_cases value l None infinity) as [H' | (p' & Hp' & H')];
    rewrite H in H'; [discriminate H'|].
  injection H' as -> ->.
  assert (p' = t) as ->.
  { apply Honly; [exact Hp'|].
    apply eqb_zero; [now apply nonneg_not_below_zero | exact Hlow | exact Hm]. }
  now rewrite Ht.
Qed.

(** ** More of what the scan returns *)

Section ScanMore.
Context {P : Type}.
Variable value : P -> float.

(** The best value of a full scan is a number: [infinity] or a value that
    was below it. *)
Lemma scan_value_number l :
  let m := snd (scan value l (None, infinity)) in (m =? m) = true.
Proof.
  cbv zeta.
  destruct (scan_below_initial value l infinity) as [H | (p & m & H & Hm)];
    rewrite H; cbn [snd]; [reflexivity | now apply eqb_refl_below with infinity].
Qed.

(** A scan that starts from any state [st] ends where the full scan ends if
    that beats [st], and at [st] otherwise. *)
Lemma scan_from l : forall st,
  scan value l st
  = if snd (scan value l (None, infinity)) <? snd st
    then scan value l (None, infinity) else st.
Proof.
  induction l as [|x l IH] using rev_ind; intros st.
  - unfold scan. cbn [fold_left snd].
    destruct (infinity <? snd st) eqn:E; [|reflexivity].
    exfalso. apply ltb_below_infinity in E. discriminate E.
  - rewrite !scan_snoc, (IH st). unfold scan_step.
    pose proof (scan_value_number l) as Hnum. cbv zeta in Hnum.
    set (r := scan value l (None, infinity)) in *.
    destruct (snd r <? snd st) eqn:Er.
    + destruct (value x <? snd r) eqn:Ex; cbn [snd].
      * now rewrite (ltb_trans _ _ _ Ex Er).
      * now rewrite Er.
    + destruct (value x <? snd st) eqn:Es.
      * assert (Ex : (value x <? snd r) = true).
        { destruct (value x <? snd r) eqn:Ex; [reflexivity|].
          assert (Hc : (snd r <? snd st) = true).
          { apply leb_ltb_trans with (value x); [|exact Es].
            apply leb_total;
              [exact Ex | now apply eqb_refl_below with (snd st) | exact Hnum]. }
          rewrite Hc in Er. discriminate Er. }
        rewrite Ex. cbn [snd]. now rewrite Es.
      * destruct (value x <? snd r) eqn:Ex; cbn [snd]; [now rewrite Es | now rewrite Er].
Qed.

(** Two chunks: the scan of [l1 ++ l2] is the better of the two scans, the
    first chunk winning ties. *)
Lemma scan_merge l1 l2 :
  scan value (l1 ++ l2) (None, infinity)
  = if snd (scan value l2 (None, infinity)) <? snd (scan value l1 (None, infinity))
    then scan value l2 (None, infinity)
    else scan value l1 (None, infinity).
Proof. rewrite scan_app. apply scan_from. Qed.

(** What comes back: [None] with [infinity], or a point of the list with
    its value, below [infinity]. *)
Lemma scan_result l :
  scan value l (None, infinity) = (None, infinity) \/
  exists p, In p l /\ scan value l (None, infinity) = (Some p, value p) /\
            (value p <? infinity) = true.
Proof.
  destruct (scan_below_initial value l infinity) as [H | (p & m & H & Hm)];
    [now left|right].
  destruct (scan_value_cases value l None infinity) as [H' | (p' & Hp' & H')];
    rewrite H in H'; [discriminate H'|].
  injection H' as -> ->. exists p'. now rewrite H.
Qed.

Hypothesis value_nonneg : forall p, nonneg (value p).

(** The best value does not depend on the order of the points. *)
Lemma scan_value_perm l l' :
  Permutation l l' ->
  snd (scan value l (None, infinity)) = snd (scan value l' (None, infinity)).
Proof.
  intros Hperm.
  pose proof (scan_lower_bound value l (None, infinity)) as Hlow.
  pose proof (scan_lower_bound value l' (None, infinity)) as Hlow'.
  destruct (scan_result l) as [H | (p & Hp & H & Hlt)],
           (scan_result l') as [H' | (p' & Hp' & H' & Hlt')];
    rewrite H in *; rewrite H' in *; cbn [snd] in *.
  - reflexivity.
  - apply (Permutation_in _ (Permutation_sym Hperm)) in Hp'.
    rewrite (Hlow p' Hp') in Hlt'. discriminate Hlt'.
  - apply (Permutation_in _ Hperm) in Hp.
    rewrite (Hlow' p Hp) in Hlt. discriminate Hlt.
  - apply nonneg_eq; try apply value_nonneg.
    + now apply eqb_refl_below with infinity.
    + now apply eqb_refl_below with infinity.
    + apply Hlow'. now apply (Permutation_in _ Hperm).
    + apply Hlow. now apply (Permutation_in _ (Permutation_sym Hperm)).
Qed.
End ScanMore.

Lemma scan_merges {P : Type}
    (find : list P -> P -> found P) (value : P -> P -> float) :
  (forall sources target,
      find sources target = scan (value target) sources (None, infinity)) ->
  merges find.
Proof.
  intros Hfind l1 l2 target. cbv zeta. rewrite !Hfind, scan_merge.
  pose proof (scan_value_number (value target) l1) as H1.
  pose proof (scan_value_number (value target) l2) as H2.
  cbv zeta in H1, H2.
  set (r1 := scan (value target) l1 (None, infinity)) in *.
  set (r2 := scan (value target) l2 (None, infinity)) in *.
  split; [reflexivity|].
  destruct (snd r2 <? snd r1) eqn:E.
  - split; [|apply ltb_irrefl].
    destruct (snd r1 <? snd r2) eqn:E'; [|reflexivity].
    rewrite <- (ltb_irrefl (snd r1)). symmetry. now apply ltb_trans with (snd r2).
  - split; [apply ltb_irrefl | exact E].
Qed.

Lemma scan_order_free_value {P : Type}
    (find : list P -> P -> found P) (value : P -> P -> float) :
  (forall sources target,
      find sources target = scan (value target) sources (None, infinity)) ->
  (forall target p, nonneg (value target p)) ->
  order_free_value find.
Proof.
  intros Hfind Hnn l l' target Hperm. rewrite !Hfind.
  apply scan_value_perm; [apply Hnn | exact Hperm].
Qed.

Lemma scan_result_shape {P : Type}
    (find : list P -> P -> found P) (value : P -> P -> float) :
  (forall sources target,
      find sources target = scan (value target) sources (None, infinity)) ->
  (forall target p, nonneg (value target p)) ->
  result_shape find value.
Proof.
  intros Hfind Hnn sources target. rewrite Hfind.
  destruct (scan_result (value target) sources) as [H | (p & Hp & H & Hlt)];
    rewrite H.
  - repeat split.
  - repeat split; try assumption.
    + now apply eqb_refl_below with infinity.
    + now apply nonneg_not_below_zero.
Qed.

Lemma scan_same_rounded_distance {P : Type} (v : P -> float) l :
  (forall p, nonneg (v p)) ->
  match fst (scan (fun p => sqrt (v p)) l (None, infinity)),
        fst (scan v l (None, infinity)) with
  | None, None => True
  | Some p, Some q =>
      sqrt (v p) = sqrt (v q) /\
      exists l1 l2, l = l1 ++ p :: l2 /\ (q = p \/ In q l2)
  | _, _ => False
  end.
Proof.
  intros Hv.
  pose proof (scan_sqrt_value v l Hv None None infinity) as Hval.
  change (sqrt infinity) with infinity in Hval.
  destruct (scan_result (fun p => sqrt (v p)) l) as [H | (p & Hp & H & Hlt)],
           (scan_result v l) as [H' | (q & Hq & H' & Hlt')];
    rewrite H, H' in *; cbn [fst snd] in *.
  - exact I.
  - apply sqrt_below_infinity in Hlt'; [|apply Hv].
    rewrite <- Hval in Hlt'. discriminate Hlt'.
  - rewrite Hval in Hlt. discriminate Hlt.
  - split; [exact Hval|].
    destruct (scan_earliest (fun p => sqrt (v p)) l infinity p (sqrt (v p)) H)
      as (l1 & l2 & -> & _ & Hbefore & _).
    exists l1, l2. split; [reflexivity|].
    apply in_app_or in Hq. destruct Hq as [Hq | [Hq | Hq]]; [|now left; symmetry|now right].
    exfalso. specialize (Hbefore q Hq). cbv beta in Hbefore.
    rewrite <- Hval in Hbefore.
    assert (Hle : (sqrt (v p) <=? sqrt (v p)) = true).
    { apply leb_total; [apply ltb_irrefl | |];
        now apply eqb_refl_below with infinity. }
    rewrite Hle in Hbefore. discriminate Hbefore.
Qed.

Lemma scan_finds_a_point {P : Type} (domain : P -> bool)
    (find : list P -> P -> found P) (value : P -> P -> float) :
  (forall sources target,
      find sources target = scan (value target) sources (None, infinity)) ->
  (forall target p, nonneg (value target p)) ->
  (forall target p, domain p = true -> domain target = true ->
                    (value target p <? infinity) = true) ->
  finds_a_point domain find value.
Proof.
  intros Hfind Hnn Hdom sources target Hne Hall Ht. rewrite Hfind.
  destruct (scan_result (value target) sources) as [H | (p & Hp & H & Hlt)].
  - exfalso. destruct sources as [|q l]; [now apply Hne|].
    apply scan_none in H. destruct H as [_ H].
    rewrite Forall_forall in Hall.
    specialize (H q (or_introl eq_refl)).
    rewrite (Hdom target q (Hall q (or_introl eq_refl)) Ht) in H. discriminate H.
  - exists p. repeat split; try assumption.
    apply nonneg_isfinite; [apply Hnn | exact Hlt].
Qed.

(** The five values: two are square roots of the other, none is negative. *)
Lemma dist_sqrt_2d target p :
  Py2D.dist_sqrt target p = sqrt (Py2D.dist_squared target p).
Proof. destruct p as [x y]. reflexivity. Qed.

Lemma dist_sqrt_3d target p :
  Py3D.dist_sqrt target p = sqrt (Py3D.dist_squared target p).
Proof. destruct p as [[x y] z], target as [[t0 t1] t2]. reflexivity. Qed.

Lemma dist_squared_2d_nonneg target p : nonneg (Py2D.dist_squared target p).
Proof.
  destruct p as [x y]. unfold Py2D.dist_squared.
  apply add_nonneg; apply mul_self_nonneg.
Qed.

Lemma dist_squared_3d_nonneg target p : nonneg (Py3D.dist_squared target p).
Proof.
  destruct p as [[x y] z], target as [[t0 t1] t2]. unfold Py3D.dist_squared.
  repeat apply add_nonneg; apply mul_self_nonneg.
Qed.

Lemma dist_sqrt_2d_nonneg target p : nonneg (Py2D.dist_sqrt target p).
Proof. rewrite dist_sqrt_2d. apply sqrt_nonneg, dist_squared_2d_nonneg. Qed.

Lemma dist_sqrt_3d_nonneg target p : nonneg (Py3D.dist_sqrt target p).
Proof. rewrite dist_sqrt_3d. apply sqrt_nonneg, dist_squared_3d_nonneg. Qed.

Lemma dist_manhattan_nonneg target p : nonneg (Py3D.dist_manhattan target p).
Proof.
  destruct p as [[x y] z], target as [[t0 t1] t2]. unfold Py3D.dist_manhattan.
  repeat apply add_nonneg; apply abs_nonneg.
Qed.

Lemma dist_sqrt_2d_domain target p :
  in_domain2 p = true -> in_domain2 target = true ->
  (Py2D.dist_sqrt target p <? infinity) = true.
Proof.
  intros Hp Ht. rewrite dist_sqrt_2d. apply sqrt_below_infinity;
    [apply dist_squared_2d_nonneg | now apply dist_squared_2d_domain].
Qed.

Lemma dist_sqrt_3d_domain target p :
  in_domain3 p = true -> in_domain3 target = true ->
  (Py3D.dist_sqrt target p <? infinity) = true.
Proof.
  intros Hp Ht. rewrite dist_sqrt_3d. apply sqrt_below_infinity;
    [apply dist_squared_3d_nonneg | now apply dist_squared_3d_domain].
Qed.

(** ** The five values at the target 500 *)

Lemma scan_single {P : Type} (value : P -> float) p :
  (value p <? infinity) = true ->
  scan value [p] (None, infinity) = (Some p, value p).
Proof. intros H. unfold scan, scan_step. cbn [fold_left snd]. now rewrite H. Qed.

Lemma zero_only_at_500_squared_2d sources :
  zero_only_at_target Py2D.dist_squared sources (500, 500).
Proof.
  intros [x y] _. unfold Py2D.dist_squared. cbn [fst snd]. intros H.
  apply add_zero in H; try apply mul_self_nonneg. destruct H as [Hx Hy].
  now rewrite (square_500_zero x Hx), (square_500_zero y Hy).
Qed.

Lemma zero_only_at_500_sqrt_2d sources :
  zero_only_at_target Py2D.dist_sqrt sources (500, 500).
Proof.
  intros q Hq H. rewrite dist_sqrt_2d in H.
  now apply (zero_only_at_500_squared_2d sources q Hq), sqrt_zero.
Qed.

Lemma zero_only_at_500_squared_3d sources :
  zero_only_at_target Py3D.dist_squared sources (500, 500, 500).
Proof.
  intros [[x y] z] _. unfold Py3D.dist_squared. intros H.
  apply add_zero in H;
    [|apply add_nonneg; apply mul_self_nonneg | apply mul_self_nonneg].
  destruct H as [H Hz].
  apply add_zero in H; try apply mul_self_nonneg. destruct H as [Hx Hy].
  now rewrite (square_500_zero x Hx), (square_500_zero y Hy),
    (square_500_zero z Hz).
Qed.

Lemma zero_only_at_500_sqrt_3d sources :
  zero_only_at_target Py3D.dist_sqrt sources (500, 500, 500).
Proof.
  intros q Hq H. rewrite dist_sqrt_3d in H.
  now apply (zero_only_at_500_squared_3d sources q Hq), sqrt_zero.
Qed.

Lemma zero_only_at_500_manhattan sources :
  zero_only_at_target Py3D.dist_manhattan sources (500, 500, 500).
Proof.
  intros [[x y] z] _. unfold Py3D.dist_manhattan. intros H.
  apply add_zero in H; [|apply add_nonneg; apply abs_nonneg | apply abs_nonneg].
  destruct H as [H Hz].
  apply add_zero in H; try apply abs_nonneg. destruct H as [Hx Hy].
  now rewrite (abs_500_zero x Hx), (abs_500_zero y Hy), (abs_500_zero z Hz).
Qed.

(** ** The strategies as scans, in full *)

Lemma scan_strict_single_pass {P : Type}
    (find : list P -> P -> found P) (value : P -> P -> float) :
  (forall sources target,
      find sources target = scan (value target) sources (None, infinity)) ->
  strict_single_pass find value.
Proof.
  intros Hfind sources target. split; [|split; [|split; [|split]]].
  - now rewrite Hfind.
  - intros p. rewrite !Hfind, scan_snoc. reflexivity.
  - intros l1 p l2 -> Hp Hl1 Hl2. rewrite Hfind.
    apply scan_first_min; [|exact Hl2].
    destruct (scan_value_cases (value target) l1 None infinity)
      as [H | (q & Hq & H)]; rewrite H; cbn [snd]; [exact Hp | now apply Hl1].
  - intros p m. rewrite Hfind. apply scan_earliest.
  - intros m. rewrite Hfind. apply scan_none.
Qed.

(** ** The generators *)

Lemma comprehension_length {S A : Type} (e : State S A) n :
  forall s, length (fst (comprehension e n s)) = n.
Proof.
  induction n as [|n IH]; intros s; [reflexivity|].
  cbn [comprehension]. unfold bind at 1. destruct (e s) as [a s1].
  unfold bind at 1. specialize (IH s1).
  destruct (comprehension e n s1) as [rest s2]. cbn in *. now rewrite IH.
Qed.

Lemma uniform_run a b g :
  uniform a b g = (a + (b - a) * draws g (drawn g), after_draws g 1).
Proof. reflexivity. Qed.

Lemma after_draws_add g n k : after_draws (after_draws g n) k = after_draws g (k + n).
Proof. unfold after_draws. cbn. f_equal. lia. Qed.

Lemma points2_run n : forall g,
  comprehension
    (x <- uniform 0 1000 ;; y <- uniform 0 1000 ;; ret (x, y))%state n g
  = (map (fun i => (coordinate g (2 * i), coordinate g (2 * i + 1))) (seq 0 n),
     after_draws g (2 * n)).
Proof.
  induction n as [|n IH]; intros g.
  - cbn. destruct g. reflexivity.
  - cbn [comprehension]. unfold bind at 1. unfold bind at 1.
    rewrite uniform_run. unfold bind at 1. rewrite uniform_run.
    unfold ret at 1. unfold bind at 1. rewrite IH. unfold bind, ret.
    rewrite after_draws_add, after_draws_add. cbn [seq map].
    f_equal; [f_equal|f_equal; lia].
    rewrite <- seq_shift, map_map. apply map_ext. intros i.
    unfold coordinate, after_draws. cbn [draws drawn].
    f_equal; do 3 f_equal; lia.
Qed.

Lemma points3_run n : forall g,
  comprehension
    (x <- uniform 0 1000 ;; y <- uniform 0 1000 ;;
     z <- uniform 0 1000 ;; ret (x, y, z))%state n g
  = (map (fun i => (coordinate g (3 * i), coordinate g (3 * i + 1),
                    coordinate g (3 * i + 2))) (seq 0 n),
     after_draws g (3 * n)).
Proof.
  induction n as [|n IH]; intros g.
  - cbn. destruct g. reflexivity.
  - cbn [comprehension]. unfold bind at 1. unfold bind at 1.
    rewrite uniform_run. unfold bind at 1. rewrite uniform_run.
    unfold bind at 1. rewrite uniform_run.
    unfold ret at 1. unfold bind at 1. rewrite IH. unfold bind, ret.
    rewrite !after_draws_add. cbn [seq map].
    f_equal; [f_equal|f_equal; lia].
    rewrite <- seq_shift, map_map. apply map_ext. intros i.
    unfold coordinate, after_draws. cbn [draws drawn].
    f_equal; [f_equal|]; do 3 f_equal; lia.
Qed.

Lemma coordinate_domain g k : unit_draws g -> in_domain (coordinate g k) = true.
Proof.
  intros Hg. destruct (Hg (k + drawn g)%nat) as [H0 H1].
  now apply uniform_0_1000_domain.
Qed.

(** ** The harness: what a run computes *)

Lemma elapsed_length c n : length (elapsed c n) = n.
Proof.
  revert c. induction n as [|n IH]; intros c; [reflexivity|].
  cbn [elapsed length]. now rewrite IH.
Qed.

Lemma timed_runs_spec {P R : Type} (f : list P -> P -> R) sources target n :
  forall times results c,
    timed_runs f sources target n times results c
    = ((times ++ elapsed c n, results ++ repeat (f sources target) n),
       advance c n).
Proof.
  induction n as [|n IH]; intros times results c.
  - cbn. rewrite !app_nil_r. destruct c. reflexivity.
  - cbn [timed_runs]. unfold bind at 1. cbn [perf_counter].
    unfold bind at 1. cbn [perf_counter reading reads].
    rewrite IH. cbn [elapsed repeat]. rewrite <- !app_assoc. cbn [app].
    unfold advance. cbn [reading reads]. f_equal. f_equal. lia.
Qed.

Lemma benchmark_method_run {P R : Type} lib (f : list P -> P -> R)
    sources target num_runs c :
  benchmark_method lib f sources target num_runs c
  = (summary lib (elapsed c (range_len num_runs))
       (repeat (f sources target) (range_len num_runs)),
     advance c (range_len num_runs)).
Proof.
  unfold benchmark_method, bind. rewrite timed_runs_spec. reflexivity.
Qed.

(** With at least one sample no entry of the dictionary raises. *)
Lemma summary_defined {R : Type} lib t ts (rs : list R) :
  exists st,
    summary lib (t :: ts) rs = inr st /\
    times st = t :: ts /\ results st = rs /\
    std_dev st = match ts with
                 | [] => PyInt 0
                 | _ :: _ => PyFloat (stdev_of lib (t :: ts))
                 end.
Proof.
  unfold summary. cbn [statistics_mean statistics_median try py_min py_max].
  destruct ts as [|t' ts]; cbn; eexists; repeat split.
Qed.

(** [min] and [max]: an item of the sequence that no item is below
    (above). *)
Lemma py_min_spec x rest :
  exists m, py_min (x :: rest) = inr m /\ In m (x :: rest) /\
            forall t, In t (x :: rest) -> (t <? m) = false.
Proof.
  cbn [py_min]. eexists. split; [reflexivity|].
  induction rest as [|y rest IH] using rev_ind.
  - cbn. split; [now left|]. intros t [Ht | []]. subst t. apply ltb_irrefl.
  - rewrite fold_left_app. cbn [fold_left].
    destruct IH as [Hin Hlow].
    set (cur := fold_left (fun cur item => if item <? cur then item else cur) rest x)
      in *.
    change (x :: rest ++ [y]) with ((x :: rest) ++ [y]).
    destruct (y <? cur) eqn:E.
    + split; [apply in_or_app; right; now left|].
      intros t Ht. apply in_app_or in Ht.
      destruct Ht as [Ht | [Ht | []]]; [|subst t; apply ltb_irrefl].
      destruct (t <? y) eqn:E'; [|reflexivity].
      rewrite <- (Hlow t Ht). symmetry. now apply ltb_trans with y.
    + split; [apply in_or_app; now left|].
      intros t Ht. apply in_app_or in Ht.
      destruct Ht as [Ht | [Ht | []]]; [now apply Hlow | subst t; exact E].
Qed.

Lemma py_max_spec x rest :
  exists m, py_max (x :: rest) = inr m /\ In m (x :: rest) /\
            forall t, In t (x :: rest) -> (m <? t) = false.
Proof.
  cbn [py_max]. eexists. split; [reflexivity|].
  induction rest as [|y rest IH] using rev_ind.
  - cbn. split; [now left|]. intros t [Ht | []]. subst t. apply ltb_irrefl.
  - rewrite fold_left_app. cbn [fold_left].
    destruct IH as [Hin Hlow].
    set (cur := fold_left (fun cur item => if cur <? item then item else cur) rest x)
      in *.
    change (x :: rest ++ [y]) with ((x :: rest) ++ [y]).
    destruct (cur <? y) eqn:E.
    + split; [apply in_or_app; right; now left|].
      intros t Ht. apply in_app_or in Ht.
      destruct Ht as [Ht | [Ht | []]]; [|subst t; apply ltb_irrefl].
      destruct (y <? t) eqn:E'; [|reflexivity].
      rewrite <- (Hlow t Ht). symmetry. now apply ltb_trans with y.
    + split; [apply in_or_app; now left|].
      intros t Ht. apply in_app_or in Ht.
      destruct Ht as [Ht | [Ht | []]]; [now apply Hlow | subst t; exact E].
Qed.

Lemma summary_min_max {R : Type} lib t ts (rs : list R) :
  exists st,
    summary lib (t :: ts) rs = inr st /\
    times st = t :: ts /\
    py_min (t :: ts) = inr (min_time st) /\
    py_max (t :: ts) = inr (max_time st).
Proof.
  unfold summary. cbn [statistics_mean statistics_median try py_min py_max].
  destruct ts as [|t' ts]; cbn; eexists; repeat split.
Qed.

Lemma elapsed_nth c : forall n i,
  (i < n)%nat ->
  nth_error (elapsed c n) i
  = Some (reading c (2 * i + 1 + reads c) - reading c (2 * i + reads c)).
Proof.
  intros n. revert c. induction n as [|n IH]; intros c i Hi; [lia|].
  cbn [elapsed]. destruct i as [|i]; cbn [nth_error].
  - reflexivity.
  - rewrite IH by lia. cbn [reading reads]. do 2 f_equal; f_equal; lia.
Qed.

(** ** The scans run over the store *)

Section ExecSpec.
Context {P : Type}.
Variable value : P -> P -> float.

Lemma loop_spec (h : store P) : forall rest seen fuel l,
  sources_obj h = seen ++ rest ->
  next_index l = length seen ->
  (length rest < fuel)%nat ->
  loop value fuel l h
  = (Some (scan (value (target_obj h)) rest (closest_point l, min_dist l)), h).
Proof.
  induction rest as [|p rest IH]; intros seen fuel l Hsrc Hidx Hfuel;
    (destruct fuel as [|fuel]; [cbn in Hfuel; lia|]);
    cbn [loop]; unfold bind, loop_turn; rewrite Hsrc, Hidx.
  - rewrite app_nil_r.
    replace (nth_error seen (length seen)) with (@None P)
      by (symmetry; apply nth_error_None; lia).
    reflexivity.
  - rewrite nth_error_app2 by lia. rewrite Nat.sub_diag. cbn [nth_error].
    rewrite (IH (seen ++ [p]) fuel).
    + rewrite scan_cons. unfold scan_step. cbn [snd].
      destruct (value (target_obj h) p <? min_dist l); reflexivity.
    + rewrite Hsrc, <- app_assoc. reflexivity.
    + rewrite length_app. cbn [length].
      destruct (value (target_obj h) p <? min_dist l); cbn [next_index]; lia.
    + cbn [length] in Hfuel. lia.
Qed.

Lemma exec_scan_spec (h : store P) fuel :
  (length (sources_obj h) < fuel)%nat ->
  exec_scan value fuel h
  = (Some (scan (value (target_obj h)) (sources_obj h) (None, infinity)), h).
Proof.
  intros Hfuel. unfold exec_scan.
  now rewrite (loop_spec h (sources_obj h) [] fuel).
Qed.
End ExecSpec.

Lemma exec_all_spec {P : Type} (values : list (P -> P -> float)) (h : store P) fuel :
  (length (sources_obj h) < fuel)%nat ->
  exec_all values fuel h
  = (map (fun v => Some (scan (v (target_obj h)) (sources_obj h) (None, infinity)))
         values, h).
Proof.
  intros Hfuel. induction values as [|v values IH]; [reflexivity|].
  cbn [exec_all map]. unfold bind at 1. rewrite exec_scan_spec by exact Hfuel.
  unfold bind at 1. rewrite IH. reflexivity.
Qed.

(** * Runs

    The functions on small inputs, evaluated. *)

(** Four points around the target (500,500): the second is nearest. *)
Example run_2d_sqrt :
  Py2D.find_closest_with_sqrt
    [(0, 0); (497, 504); (503, 496); (1000, 1000)] (500, 500)
  = (Some (497, 504), 5).
Proof. reflexivity. Qed.

Example run_2d_squared :
  Py2D.find_closest_with_squared
    [(0, 0); (497, 504); (503, 496); (1000, 1000)] (500, 500)
  = (Some (497, 504), 25).
Proof. reflexivity. Qed.

(** Manhattan distance is another metric: of the points (503,503,503) and
    (506,500,500) the Euclidean strategies pick the first, at squared
    distance 27 against 36, and the Manhattan strategy the second, at
    distance 6 against 9. *)
Example run_3d_metrics_disagree :
  let sources := [(503, 503, 503); (506, 500, 500)] in
  let target := (500, 500, 500) in
  Py3D.find_closest_3d_with_squared sources target = (Some (503, 503, 503), 27) /\
  fst (Py3D.find_closest_3d_with_sqrt sources target) = Some (503, 503, 503) /\
  Py3D.find_closest_3d_with_manhattan sources target = (Some (506, 500, 500), 6).
Proof. cbv zeta. repeat split; reflexivity. Qed.

(** Two points that [random.uniform(0, 1000)] draws from 0.25 and 0.75. *)
Example run_generate_test_data :
  let g := {| draws := fun n => if Nat.even n then 0.25 else 0.75; drawn := 0 |} in
  fst (generate_test_data 2 g) = ([(250, 750); (250, 750)], (500, 500)).
Proof. reflexivity. Qed.

(** With no run at all the harness raises: [statistics.mean] of no sample. *)
Example run_benchmark_no_run :
  forall lib c,
    fst (benchmark_method lib Py2D.find_closest_with_sqrt [(1, 2)] (500, 500) 0 c)
    = inl StatisticsError.
Proof. reflexivity. Qed.

(** Outside the coordinate domain a square can overflow: the squared
    distance of the point (2^600, 0) is [infinity], which is not below the
    initial best, and the scan of that single point returns [None]. *)
Example run_2d_overflow :
  Py2D.dist_squared (500, 500) (0x1p+600, 0) = infinity /\
  Py2D.find_closest_with_squared [(0x1p+600, 0)] (500, 500) = (None, infinity).
Proof. split; reflexivity. Qed.

(** With the target at the origin a square can underflow: the squared
    distance of the point (2^-600, 2^-600) is 0, and standing before the
    point (0, 0) it is the one returned. *)
Example run_2d_underflow :
  Py2D.find_closest_with_squared [(0x1p-600, 0x1p-600); (0, 0)] (0, 0)
  = (Some (0x1p-600, 0x1p-600), 0).
Proof. reflexivity. Qed.

(** * The claims *)

#[local] Set Warnings "-inexact-float".

(** Two values differ when decoding separates them. *)
Ltac differ_by f H :=
  apply (f_equal f) in H; vm_compute in H; discriminate H.

Ltac floats_differ H := differ_by Prim2SF H.

(** ** C1: the two Euclidean strategies and the point they return *)

(** C1 as stated fails.  With target (500,500), the points
    [(501, 500 + 2^-26)] and [(501, 500)] have squared distances
    [1 + 2^-52] and [1]; both round to the square root [1].  The
    squared-distance scan moves on to the second, closer point; the
    square-root scan sees a tie and keeps the first. *)
Lemma C1_rounding_counterexample :
  let y := 500.00000001490116 in
  let sources := [(501, y); (501, 500)] in
  let target := (500, 500) in
  y = 500 + 1 / 67108864 /\
  Py2D.dist_squared target (501, y) = 1.0000000000000002 /\
  Py2D.dist_squared target (501, 500) = 1 /\
  sqrt 1.0000000000000002 = 1 /\
  Py2D.find_closest_with_sqrt sources target = (Some (501, y), 1) /\
  Py2D.find_closest_with_squared sources target = (Some (501, 500), 1) /\
  fst (Py2D.find_closest_with_sqrt sources target)
  <> fst (Py2D.find_closest_with_squared sources target).
Proof.
  cbv zeta. repeat split; vm_compute; try reflexivity.
  intros H.
  differ_by (fun o : option point2 =>
               match o with
               | Some (_, y) => Prim2SF y
               | None => S754_nan
               end) H.
Qed.

(** C1 (amended): for every point set and target in which no two squared
    distances that differ have the same rounded square root, the
    Euclidean-sqrt and the Euclidean-squared strategy return the identical
    closest point, in 2D and in 3D. *)
Theorem C1_same_point_when_roots_distinct :
  (forall sources target,
      roots_distinct (map (Py2D.dist_squared target) sources) ->
      fst (Py2D.find_closest_with_sqrt sources target)
      = fst (Py2D.find_closest_with_squared sources target)) /\
  (forall sources target,
      roots_distinct (map (Py3D.dist_squared target) sources) ->
      fst (Py3D.find_closest_3d_with_sqrt sources target)
      = fst (Py3D.find_closest_3d_with_squared sources target)).
Proof.
  split; intros sources target Hd.
  - rewrite find_closest_with_sqrt_scan, find_closest_with_squared_scan.
    rewrite (scan_ext _ _ (dist_sqrt_2d target)).
    apply scan_sqrt_point; [apply dist_squared_2d_nonneg | exact Hd].
  - rewrite find_closest_3d_with_sqrt_scan, find_closest_3d_with_squared_scan.
    rewrite (scan_ext _ _ (dist_sqrt_3d target)).
    apply scan_sqrt_point; [apply dist_squared_3d_nonneg | exact Hd].
Qed.

(** Three points at squared distances 25, 100 and 2 of the target. *)
Lemma C1_three_points_witness :
  let sources := [(503, 504); (500, 510); (499, 501)] in
  let target := (500, 500) in
  roots_distinct (map (Py2D.dist_squared target) sources) /\
  fst (Py2D.find_closest_with_sqrt sources target)
  = fst (Py2D.find_closest_with_squared sources target).
Proof.
  cbv zeta.
  assert (Hd : roots_distinct
                 (map (Py2D.dist_squared (500, 500))
                      [(503, 504); (500, 510); (499, 501)])).
  { intros a b Ha Hb Hab H. cbn in Ha, Hb.
    destruct Ha as [<- | [<- | [<- | []]]], Hb as [<- | [<- | [<- | []]]];
      solve [vm_compute in Hab; discriminate Hab | floats_differ H]. }
  split; [exact Hd|].
  exact (proj1 C1_same_point_when_roots_distinct _ _ Hd).
Defined.

(** ** C2: one pass, strict comparison, the earliest minimum wins *)

(** C2: every strategy scans the point set once, replaces its best only
    when the new value is strictly smaller, and therefore returns, among
    points of equal value, the one met first. *)
Theorem C2_strict_scan_keeps_earliest :
  strict_single_pass Py2D.find_closest_with_sqrt Py2D.dist_sqrt /\
  strict_single_pass Py2D.find_closest_with_squared Py2D.dist_squared /\
  strict_single_pass Py3D.find_closest_3d_with_sqrt Py3D.dist_sqrt /\
  strict_single_pass Py3D.find_closest_3d_with_squared Py3D.dist_squared /\
  strict_single_pass Py3D.find_closest_3d_with_manhattan Py3D.dist_manhattan.
Proof.
  split; [|split; [|split; [|split]]]; apply scan_strict_single_pass; intros.
  - apply find_closest_with_sqrt_scan.
  - apply find_closest_with_squared_scan.
  - apply find_closest_3d_with_sqrt_scan.
  - apply find_closest_3d_with_squared_scan.
  - apply find_closest_3d_with_manhattan_scan.
Qed.

(** Three points at distance 5 of the origin: the first one is returned. *)
Lemma C2_tie_witness :
  earliest_minimum (Py2D.dist_sqrt (0, 0)) [(3, 4); (0, 5); (5, 0)] (3, 4) 5.
Proof.
  apply (proj1 C2_strict_scan_keeps_earliest [(3, 4); (0, 5); (5, 0)] (0, 0)).
  reflexivity.
Defined.

(** ** C3: the value of the Euclidean-sqrt strategy *)

(** C3: for every point set (empty or not) and target, the value the
    Euclidean-sqrt strategy returns is the square root of the value the
    Euclidean-squared strategy returns: the same float, equal under [==],
    so within any tolerance. *)
Theorem C3_sqrt_value_is_root_of_squared_value :
  (forall sources target,
      let v := snd (Py2D.find_closest_with_sqrt sources target) in
      let v_sq := snd (Py2D.find_closest_with_squared sources target) in
      v = sqrt v_sq /\ (v =? sqrt v_sq) = true) /\
  (forall sources target,
      let v := snd (Py3D.find_closest_3d_with_sqrt sources target) in
      let v_sq := snd (Py3D.find_closest_3d_with_squared sources target) in
      v = sqrt v_sq /\ (v =? sqrt v_sq) = true).
Proof.
  assert (Hrefl : forall (P : Type) (value : P -> float) l,
             let v := snd (scan value l (None, infinity)) in (v =? v) = true).
  { intros P value l v. subst v.
    destruct (scan_below_initial value l infinity) as [H | (p & m & H & Hm)];
      rewrite H; cbn [snd]; [reflexivity | now apply eqb_refl_below with infinity]. }
  split; intros sources target; cbv zeta.
  - rewrite find_closest_with_sqrt_scan, find_closest_with_squared_scan.
    assert (E : snd (scan (Py2D.dist_sqrt target) sources (None, infinity))
                = sqrt (snd (scan (Py2D.dist_squared target) sources (None, infinity)))).
    { rewrite (scan_ext _ _ (dist_sqrt_2d target)).
      apply (scan_sqrt_value (Py2D.dist_squared target) sources
               (dist_squared_2d_nonneg target) None None infinity). }
    split; [exact E|]. rewrite <- E. apply Hrefl.
  - rewrite find_closest_3d_with_sqrt_scan, find_closest_3d_with_squared_scan.
    assert (E : snd (scan (Py3D.dist_sqrt target) sources (None, infinity))
                = sqrt (snd (scan (Py3D.dist_squared target) sources (None, infinity)))).
    { rewrite (scan_ext _ _ (dist_sqrt_3d target)).
      apply (scan_sqrt_value (Py3D.dist_squared target) sources
               (dist_squared_3d_nonneg target) None None infinity). }
    split; [exact E|]. rewrite <- E. apply Hrefl.
Qed.

(** ** C4: the metrics of (0,0,0) and (3,4,5) *)

(** C4: for the points (0,0,0) and (3,4,5) the Manhattan distance is 12, the
    squared Euclidean distance is 50 and the Euclidean distance is the float
    square root of 50: the binary64 number [m * 2^-50] nearest to the real
    square root of 50 (its half-ulp neighbours square to either side of 50),
    which lies between 7.07105 and 7.07115 and so prints as 7.0711. *)
Theorem C4_metrics_of_3_4_5 :
  let m := 7961314590657216%Z in
  compare_distance_metrics = (sqrt 50, 50%Z, 12%Z) /\
  Prim2SF (sqrt 50) = S754_finite false (Z.to_pos m) (-50) /\
  ((2 * m - 1) ^ 2 < 4 * 50 * 2 ^ 100 < (2 * m + 1) ^ 2)%Z /\
  (707105 * 2 ^ 50 <= m * 100000 < 707115 * 2 ^ 50)%Z.
Proof.
  cbv zeta. repeat split; vm_compute; reflexivity || discriminate.
Qed.

(** ** C5: the repetitions of a run return the same result *)

(** C5: for every strategy, point set, target and repetition count
    [R >= 1], the harness returns a dictionary (nothing raises) whose
    ['results'] are [R] copies of the one result the strategy computes on
    these inputs. *)
Theorem C5_repetitions_identical :
  repeats_identical (@benchmark_method) /\
  repeats_identical (@benchmark_3d_method).
Proof.
  assert (H : repeats_identical (@benchmark_method)).
  { intros P R lib f sources target num_runs c Hn.
    rewrite benchmark_method_run. cbn [fst]. unfold range_len.
    destruct (Z.to_nat num_runs) as [|n] eqn:En; [lia|].
    cbn [elapsed].
    destruct (summary_defined lib
                (reading c (S (reads c)) - reading c (reads c))
                (elapsed {| reading := reading c; reads := S (S (reads c)) |} n)
                (repeat (f sources target) (S n)))
      as (st & Hst & _ & Hres & _).
    exists st. rewrite Hst, Hres. repeat split.
    - apply repeat_length.
    - intros r Hr. now apply repeat_spec in Hr. }
  split; exact H.
Qed.

(** Three timed runs of the squared-distance scan over two points. *)
Lemma C5_three_runs_witness :
  let c := {| reading := fun n => of_uint63 (Uint63.of_Z (Z.of_nat n)); reads := 0 |} in
  let lib := {| mean_of := fun _ => 0; median_of := fun _ => 0; stdev_of := fun _ => 0 |} in
  exists st,
    fst (benchmark_method lib Py2D.find_closest_with_squared
           [(1, 2); (499, 501)] (500, 500) 3 c) = inr st /\
    results st = repeat (Some (499, 501), 2) 3 /\
    length (results st) = 3%nat /\
    (forall r, In r (results st) -> r = (Some (499, 501), 2)).
Proof.
  intros c lib.
  apply (proj1 C5_repetitions_identical point2 (found point2) lib
           Py2D.find_closest_with_squared [(1, 2); (499, 501)] (500, 500) 3%Z c).
  lia.
Defined.

(** ** C6: the standard deviation of a single sample *)

(** C6: with a single repetition the harness returns its dictionary without
    raising and ['std_dev'] is the integer 0 ([statistics.stdev] is not
    called); with more than one repetition ['std_dev'] is what
    [statistics.stdev] computes from the timing samples. *)
Theorem C6_stdev_of_single_sample :
  stdev_guarded (@benchmark_method) /\ stdev_guarded (@benchmark_3d_method).
Proof.
  assert (H : stdev_guarded (@benchmark_method)).
  { intros P R lib f sources target c. split.
    - rewrite benchmark_method_run. reflexivity.
    - intros num_runs Hn. rewrite benchmark_method_run. cbn [fst].
      unfold range_len.
      destruct (Z.to_nat num_runs) as [|[|n]] eqn:En; [lia | lia |].
      cbn [elapsed].
      match goal with
      | |- context [summary lib (?t :: ?t' :: ?ts) ?rs] =>
          destruct (summary_defined lib t (t' :: ts) rs)
            as (st & Hst & Htimes & _ & Hdev)
      end.
      exists st. rewrite Hst, Hdev, Htimes. repeat split.
      cbn [length]. now rewrite elapsed_length. }
  split; exact H.
Qed.

(** Two timed runs: the standard deviation is the library's. *)
Lemma C6_two_runs_witness :
  let c := {| reading := fun n => of_uint63 (Uint63.of_Z (Z.of_nat n)); reads := 0 |} in
  let lib := {| mean_of := fun _ => 0; median_of := fun _ => 0; stdev_of := fun _ => 0 |} in
  exists st,
    fst (benchmark_method lib Py2D.find_closest_with_squared
           [(1, 2); (499, 501)] (500, 500) 2 c) = inr st /\
    times st = elapsed c 2 /\
    length (times st) = 2%nat /\
    std_dev st = PyFloat (stdev_of lib (times st)).
Proof.
  intros c lib.
  apply (proj2 (proj1 C6_stdev_of_single_sample point2 (found point2) lib
                  Py2D.find_closest_with_squared [(1, 2); (499, 501)]
                  (500, 500) c) 2%Z).
  lia.
Defined.

(** ** C7: a point set of one point *)

(** C7: for a point set of exactly one point, with the point and the target
    in the coordinate domain [0, 1000], every strategy returns that point
    as the closest one, with the value of its metric between the point and
    the target, a finite number. *)
Theorem C7_single_point_in_domain :
  single_point_found in_domain2 Py2D.find_closest_with_sqrt Py2D.dist_sqrt /\
  single_point_found in_domain2 Py2D.find_closest_with_squared Py2D.dist_squared /\
  single_point_found in_domain3 Py3D.find_closest_3d_with_sqrt Py3D.dist_sqrt /\
  single_point_found in_domain3 Py3D.find_closest_3d_with_squared
    Py3D.dist_squared /\
  single_point_found in_domain3 Py3D.find_closest_3d_with_manhattan
    Py3D.dist_manhattan.
Proof.
  split; [|split; [|split; [|split]]]; intros p target Hp Ht.
  - rewrite find_closest_with_sqrt_scan.
    assert (H : (Py2D.dist_sqrt target p <? infinity) = true).
    { rewrite dist_sqrt_2d. apply sqrt_below_infinity;
        [apply dist_squared_2d_nonneg | now apply dist_squared_2d_domain]. }
    split; [now apply scan_single|].
    apply nonneg_isfinite; [apply dist_sqrt_2d_nonneg | exact H].
  - rewrite find_closest_with_squared_scan.
    pose proof (dist_squared_2d_domain target p Hp Ht) as H.
    split; [now apply scan_single|].
    apply nonneg_isfinite; [apply dist_squared_2d_nonneg | exact H].
  - rewrite find_closest_3d_with_sqrt_scan.
    assert (H : (Py3D.dist_sqrt target p <? infinity) = true).
    { rewrite dist_sqrt_3d. apply sqrt_below_infinity;
        [apply dist_squared_3d_nonneg | now apply dist_squared_3d_domain]. }
    split; [now apply scan_single|].
    apply nonneg_isfinite; [apply dist_sqrt_3d_nonneg | exact H].
  - rewrite find_closest_3d_with_squared_scan.
    pose proof (dist_squared_3d_domain target p Hp Ht) as H.
    split; [now apply scan_single|].
    apply nonneg_isfinite; [apply dist_squared_3d_nonneg | exact H].
  - rewrite find_closest_3d_with_manhattan_scan.
    pose proof (dist_manhattan_domain target p Hp Ht) as H.
    split; [now apply scan_single|].
    apply nonneg_isfinite; [apply dist_manhattan_nonneg | exact H].
Qed.

(** The point (250, 1000), at a corner of the domain, and the target
    (500, 500). *)
Lemma C7_corner_point_witness :
  let p := (250, 1000) in
  let target := (500, 500) in
  in_domain2 p = true /\ in_domain2 target = true /\
  Py2D.find_closest_with_sqrt [p] target = (Some p, Py2D.dist_sqrt target p) /\
  isfinite (Py2D.dist_sqrt target p) = true.
Proof.
  cbv zeta.
  assert (Hp : in_domain2 (250, 1000) = true) by reflexivity.
  assert (Ht : in_domain2 (500, 500) = true) by reflexivity.
  split; [exact Hp|]. split; [exact Ht|].
  exact (proj1 C7_single_point_in_domain (250, 1000) (500, 500) Hp Ht).
Defined.

(** ** C8: a point equal to the target *)

(** C8: with the target at (500, 500), or at (500, 500, 500), every point
    set that contains a point equal to the target makes every strategy
    return that point as the closest one, with the value 0. *)
Theorem C8_target_500_in_the_set :
  finds_target Py2D.find_closest_with_sqrt (500, 500) /\
  finds_target Py2D.find_closest_with_squared (500, 500) /\
  finds_target Py3D.find_closest_3d_with_sqrt (500, 500, 500) /\
  finds_target Py3D.find_closest_3d_with_squared (500, 500, 500) /\
  finds_target Py3D.find_closest_3d_with_manhattan (500, 500, 500).
Proof.
  split; [|split; [|split; [|split]]]; intros sources Hin.
  - rewrite find_closest_with_sqrt_scan.
    apply scan_zero;
      [apply dist_sqrt_2d_nonneg | reflexivity | exact Hin
      | apply zero_only_at_500_sqrt_2d].
  - rewrite find_closest_with_squared_scan.
    apply scan_zero;
      [apply dist_squared_2d_nonneg | reflexivity | exact Hin
      | apply zero_only_at_500_squared_2d].
  - rewrite find_closest_3d_with_sqrt_scan.
    apply scan_zero;
      [apply dist_sqrt_3d_nonneg | reflexivity | exact Hin
      | apply zero_only_at_500_sqrt_3d].
  - rewrite find_closest_3d_with_squared_scan.
    apply scan_zero;
      [apply dist_squared_3d_nonneg | reflexivity | exact Hin
      | apply zero_only_at_500_squared_3d].
  - rewrite find_closest_3d_with_manhattan_scan.
    apply scan_zero;
      [apply dist_manhattan_nonneg | reflexivity | exact Hin
      | apply zero_only_at_500_manhattan].
Qed.

(** The two binary64 neighbours of 500 stand before and after the target:
    their squared distances are not zero, and the target is returned. *)
Lemma C8_neighbours_witness :
  let sources :=
    [(0x1.f400000000001p+8, 500); (1, 2); (500, 500);
     (0x1.f3fffffffffffp+8, 500)] in
  In (500, 500) sources /\
  Py2D.find_closest_with_squared sources (500, 500) = (Some (500, 500), 0).
Proof.
  cbv zeta.
  assert (Hin : In (500, 500)
                  [(0x1.f400000000001p+8, 500); (1, 2); (500, 500);
                   (0x1.f3fffffffffffp+8, 500)])
    by (right; right; left; reflexivity).
  split; [exact Hin|].
  exact (proj1 (proj2 C8_target_500_in_the_set) _ Hin).
Defined.

(** ** C9: the scans leave the point set and the target alone *)

(** C9: no strategy changes the point set or the target: after a scan the
    store holds the same list and the same target, so scans and repetitions
    run one after the other, in any order, all read the same input. *)
Theorem C9_store_unchanged :
  leaves_store_alone Py2D.dist_sqrt Py2D.find_closest_with_sqrt /\
  leaves_store_alone Py2D.dist_squared Py2D.find_closest_with_squared /\
  leaves_store_alone Py3D.dist_sqrt Py3D.find_closest_3d_with_sqrt /\
  leaves_store_alone Py3D.dist_squared Py3D.find_closest_3d_with_squared /\
  leaves_store_alone Py3D.dist_manhattan Py3D.find_closest_3d_with_manhattan /\
  order_insensitive point2 /\
  order_insensitive point3.
Proof.
  assert (Hord : forall P, order_insensitive P).
  { intros P values values' h fuel Hfuel.
    rewrite !exec_all_spec by exact Hfuel. cbn [fst snd].
    repeat split. apply Permutation_map. }
  split; [|split; [|split; [|split; [|split; [|split]]]]]; try apply Hord;
    intros h fuel Hfuel; rewrite exec_scan_spec by exact Hfuel.
  - now rewrite find_closest_with_sqrt_scan.
  - now rewrite find_closest_with_squared_scan.
  - now rewrite find_closest_3d_with_sqrt_scan.
  - now rewrite find_closest_3d_with_squared_scan.
  - now rewrite find_closest_3d_with_manhattan_scan.
Qed.

(** The three 3D scans over a store of two points, in two orders. *)
Lemma C9_three_scans_witness :
  let h := {| sources_obj := [(1, 2, 3); (499, 500, 502)];
              target_obj := (500, 500, 500) |} in
  let values := [Py3D.dist_sqrt; Py3D.dist_squared; Py3D.dist_manhattan] in
  let values' := [Py3D.dist_manhattan; Py3D.dist_sqrt; Py3D.dist_squared] in
  snd (exec_all values 3 h) = h /\
  fst (exec_all values 3 h)
  = map (fun v => Some (scan (v (target_obj h)) (sources_obj h) (None, infinity)))
        values /\
  (Permutation values values' ->
   Permutation (fst (exec_all values 3 h)) (fst (exec_all values' 3 h))).
Proof.
  intros h values values'.
  apply (proj2 (proj2 (proj2 (proj2 (proj2 (proj2 C9_store_unchanged)))))
           values values' h 3%nat).
  cbn. lia.
Defined.

(** ** C10: the empty point set *)

(** C10: on an empty point set every strategy returns [(None, infinity)],
    without raising; and for a count [N <= 0] each generator returns an empty
    point set with its fixed target, without drawing a random number. *)
Theorem C10_empty_point_set :
  (forall target, Py2D.find_closest_with_sqrt [] target = (None, infinity)) /\
  (forall target, Py2D.find_closest_with_squared [] target = (None, infinity)) /\
  (forall target, Py3D.find_closest_3d_with_sqrt [] target = (None, infinity)) /\
  (forall target, Py3D.find_closest_3d_with_squared [] target = (None, infinity)) /\
  (forall target, Py3D.find_closest_3d_with_manhattan [] target = (None, infinity)) /\
  (forall num_points g,
      (num_points <= 0)%Z ->
      generate_test_data num_points g = (([], (500, 500)), g)) /\
  (forall num_points g,
      (num_points <= 0)%Z ->
      generate_3d_test_data num_points g = (([], (500, 500, 500)), g)).
Proof.
  repeat split; try (destruct target as [[t0 t1] t2]; reflexivity).
  - intros num_points g Hn. unfold generate_test_data, range_len.
    replace (Z.to_nat num_points) with 0%nat by lia. reflexivity.
  - intros num_points g Hn. unfold generate_3d_test_data, range_len.
    replace (Z.to_nat num_points) with 0%nat by lia. reflexivity.
Qed.

(** A generator asked for [-3] points. *)
Lemma C10_negative_count_witness :
  let g := {| draws := fun _ => 0.5; drawn := 0 |} in
  generate_test_data (-3) g = (([], (500, 500)), g).
Proof.
  intros g.
  apply (proj1 (proj2 (proj2 (proj2 (proj2 (proj2 C10_empty_point_set)))))
           (-3)%Z g).
  lia.
Defined.

(** * Further properties *)

(** X1: the generators.  [generate_test_data(N)] returns [N] points (none
    for [N <= 0]) and the target (500, 500); point [i] is made of the draws
    [2i] and [2i + 1] of [random.random()], the first for [x]; [2N] draws
    are taken.  [generate_3d_test_data(N)] likewise with the draws [3i],
    [3i + 1], [3i + 2] and the target (500, 500, 500). *)
Theorem X1_generated_points :
  (forall num_points g,
      generate_test_data num_points g
      = ((map (fun i => (coordinate g (2 * i), coordinate g (2 * i + 1)))
              (seq 0 (Z.to_nat num_points)),
          (500, 500)),
         after_draws g (2 * Z.to_nat num_points))) /\
  (forall num_points g,
      generate_3d_test_data num_points g
      = ((map (fun i => (coordinate g (3 * i), coordinate g (3 * i + 1),
                         coordinate g (3 * i + 2)))
              (seq 0 (Z.to_nat num_points)),
          (500, 500, 500)),
         after_draws g (3 * Z.to_nat num_points))).
Proof.
  split; intros num_points g.
  - unfold generate_test_data, bind, range_len. rewrite points2_run. reflexivity.
  - unfold generate_3d_test_data, bind, range_len. rewrite points3_run. reflexivity.
Qed.



(** X3: on a point set that is not empty, with the coordinates of the
    points and of the target in [0, 1000], every strategy returns a point
    of the set with the value of its metric, a finite number; it does not
    return [None]. *)
Theorem X3_in_domain_a_point_is_found :
  finds_a_point in_domain2 Py2D.find_closest_with_sqrt Py2D.dist_sqrt /\
  finds_a_point in_domain2 Py2D.find_closest_with_squared Py2D.dist_squared /\
  finds_a_point in_domain3 Py3D.find_closest_3d_with_sqrt Py3D.dist_sqrt /\
  finds_a_point in_domain3 Py3D.find_closest_3d_with_squared Py3D.dist_squared /\
  finds_a_point in_domain3 Py3D.find_closest_3d_with_manhattan
    Py3D.dist_manhattan.
Proof.
  split; [|split; [|split; [|split]]]; apply scan_finds_a_point.
  - apply find_closest_with_sqrt_scan.
  - apply dist_sqrt_2d_nonneg.
  - apply dist_sqrt_2d_domain.
  - apply find_closest_with_squared_scan.
  - apply dist_squared_2d_nonneg.
  - apply dist_squared_2d_domain.
  - apply find_closest_3d_with_sqrt_scan.
  - apply dist_sqrt_3d_nonneg.
  - apply dist_sqrt_3d_domain.
  - apply find_closest_3d_with_squared_scan.
  - apply dist_squared_3d_nonneg.
  - apply dist_squared_3d_domain.
  - apply find_closest_3d_with_manhattan_scan.
  - apply dist_manhattan_nonneg.
  - apply dist_manhattan_domain.
Qed.

(** The corners of the domain around the target. *)
Lemma X3_corners_witness :
  let sources := [(0, 0, 0); (1000, 1000, 1000); (0, 1000, 500)] in
  let target := (500, 500, 500) in
  sources <> [] /\
  Forall (fun p => in_domain3 p = true) sources /\
  in_domain3 target = true /\
  exists p,
    In p sources /\
    Py3D.find_closest_3d_with_manhattan sources target
    = (Some p, Py3D.dist_manhattan target p) /\
    isfinite (Py3D.dist_manhattan target p) = true.
Proof.
  cbv zeta.
  assert (Hne : [(0, 0, 0); (1000, 1000, 1000); (0, 1000, 500)] <> @nil point3)
    by discriminate.
  assert (Hall : Forall (fun p => in_domain3 p = true)
                   [(0, 0, 0); (1000, 1000, 1000); (0, 1000, 500)])
    by (repeat constructor).
  assert (Ht : in_domain3 (500, 500, 500) = true) by reflexivity.
  split; [exact Hne|]. split; [exact Hall|]. split; [exact Ht|].
  exact (proj2 (proj2 (proj2 (proj2 X3_in_domain_a_point_is_found)))
           _ _ Hne Hall Ht).
Defined.

(** X4: a generator followed by a scan, as the scripts run them.  With
    every draw in [0, 1) and at least one point asked for, every strategy
    returns one of the generated points with a finite value. *)
Theorem X4_scan_of_generated_data :
  (forall num_points g,
      unit_draws g -> (1 <= num_points)%Z ->
      let '(sources, target) := fst (generate_test_data num_points g) in
      (exists p, In p sources /\
         Py2D.find_closest_with_sqrt sources target
         = (Some p, Py2D.dist_sqrt target p)) /\
      (exists p, In p sources /\
         Py2D.find_closest_with_squared sources target
         = (Some p, Py2D.dist_squared target p))) /\
  (forall num_points g,
      unit_draws g -> (1 <= num_points)%Z ->
      let '(sources, target) := fst (generate_3d_test_data num_points g) in
      (exists p, In p sources /\
         Py3D.find_closest_3d_with_sqrt sources target
         = (Some p, Py3D.dist_sqrt target p)) /\
      (exists p, In p sources /\
         Py3D.find_closest_3d_with_squared sources target
         = (Some p, Py3D.dist_squared target p)) /\
      (exists p, In p sources /\
         Py3D.find_closest_3d_with_manhattan sources target
         = (Some p, Py3D.dist_manhattan target p))).
Proof.
  assert (Hne : forall (A : Type) (f : nat -> A) n,
             (1 <= n)%nat -> map f (seq 0 n) <> []).
  { intros A f [|n] Hn; [lia | discriminate]. }
  split; intros num_points g Hg Hn.
  - unfold generate_test_data, bind, range_len. rewrite points2_run.
    cbn [fst snd ret].
    set (sources := map _ _).
    assert (Hs : sources <> []) by (apply Hne; lia).
    assert (Hall : Forall (fun p => in_domain2 p = true) sources).
    { apply Forall_forall. intros p Hp. apply in_map_iff in Hp.
      destruct Hp as (i & <- & _). cbn [in_domain2].
      now rewrite !coordinate_domain. }
    assert (Ht : in_domain2 (500, 500) = true) by reflexivity.
    split.
    + destruct (scan_finds_a_point in_domain2 _ _ find_closest_with_sqrt_scan
                  dist_sqrt_2d_nonneg dist_sqrt_2d_domain sources _ Hs Hall Ht)
        as (p & Hp & H & _).
      now exists p.
    + destruct (scan_finds_a_point in_domain2 _ _ find_closest_with_squared_scan
                  dist_squared_2d_nonneg dist_squared_2d_domain sources _ Hs Hall Ht)
        as (p & Hp & H & _).
      now exists p.
  - unfold generate_3d_test_data, bind, range_len. rewrite points3_run.
    cbn [fst snd ret].
    set (sources := map _ _).
    assert (Hs : sources <> []) by (apply Hne; lia).
    assert (Hall : Forall (fun p => in_domain3 p = true) sources).
    { apply Forall_forall. intros p Hp. apply in_map_iff in Hp.
      destruct Hp as (i & <- & _). cbn [in_domain3].
      now rewrite !coordinate_domain. }
    assert (Ht : in_domain3 (500, 500, 500) = true) by reflexivity.
    split; [|split].
    + destruct (scan_finds_a_point in_domain3 _ _ find_closest_3d_with_sqrt_scan
                  dist_sqrt_3d_nonneg dist_sqrt_3d_domain sources _ Hs Hall Ht)
        as (p & Hp & H & _).
      now exists p.
    + destruct (scan_finds_a_point in_domain3 _ _ find_closest_3d_with_squared_scan
                  dist_squared_3d_nonneg dist_squared_3d_domain sources _ Hs Hall Ht)
        as (p & Hp & H & _).
      now exists p.
    + destruct (scan_finds_a_point in_domain3 _ _ find_closest_3d_with_manhattan_scan
                  dist_manhattan_nonneg dist_manhattan_domain sources _ Hs Hall Ht)
        as (p & Hp & H & _).
      now exists p.
Qed.

(** Two points drawn from one quarter and three quarters, alternately. *)
Lemma X4_two_points_witness :
  let g := {| draws := fun n => if Nat.even n then 0.25 else 0.75; drawn := 0 |} in
  unit_draws g /\
  (exists p, In p [(250, 750); (250, 750)] /\
     Py2D.find_closest_with_sqrt [(250, 750); (250, 750)] (500, 500)
     = (Some p, Py2D.dist_sqrt (500, 500) p)) /\
  (exists p, In p [(250, 750); (250, 750)] /\
     Py2D.find_closest_with_squared [(250, 750); (250, 750)] (500, 500)
     = (Some p, Py2D.dist_squared (500, 500) p)).
Proof.
  cbv zeta.
  assert (Hg : unit_draws
                 {| draws := fun n => if Nat.even n then 0.25 else 0.75;
                    drawn := 0 |})
    by (intros k; cbn [draws]; destruct (Nat.even k); split; reflexivity).
  split; [exact Hg|].
  exact (proj1 X4_scan_of_generated_data 2%Z _ Hg ltac:(lia)).
Defined.

(** X5: splitting the point set.  For every strategy the result on
    [l1 ++ l2] is the better of the results on [l1] and on [l2], the one
    on [l1] when the value on [l2] is not below it; and its value is above
    neither of the two. *)
Theorem X5_scan_of_two_chunks :
  merges Py2D.find_closest_with_sqrt /\
  merges Py2D.find_closest_with_squared /\
  merges Py3D.find_closest_3d_with_sqrt /\
  merges Py3D.find_closest_3d_with_squared /\
  merges Py3D.find_closest_3d_with_manhattan.
Proof.
  split; [|split; [|split; [|split]]].
  - exact (scan_merges _ _ find_closest_with_sqrt_scan).
  - exact (scan_merges _ _ find_closest_with_squared_scan).
  - exact (scan_merges _ _ find_closest_3d_with_sqrt_scan).
  - exact (scan_merges _ _ find_closest_3d_with_squared_scan).
  - exact (scan_merges _ _ find_closest_3d_with_manhattan_scan).
Qed.

(** X6: the value a strategy returns is the same for every order of the
    points (the point returned can change, between points of that same
    value). *)
Theorem X6_value_does_not_depend_on_order :
  order_free_value Py2D.find_closest_with_sqrt /\
  order_free_value Py2D.find_closest_with_squared /\
  order_free_value Py3D.find_closest_3d_with_sqrt /\
  order_free_value Py3D.find_closest_3d_with_squared /\
  order_free_value Py3D.find_closest_3d_with_manhattan.
Proof.
  split; [|split; [|split; [|split]]].
  - exact (scan_order_free_value _ _ find_closest_with_sqrt_scan
             dist_sqrt_2d_nonneg).
  - exact (scan_order_free_value _ _ find_closest_with_squared_scan
             dist_squared_2d_nonneg).
  - exact (scan_order_free_value _ _ find_closest_3d_with_sqrt_scan
             dist_sqrt_3d_nonneg).
  - exact (scan_order_free_value _ _ find_closest_3d_with_squared_scan
             dist_squared_3d_nonneg).
  - exact (scan_order_free_value _ _ find_closest_3d_with_manhattan_scan
             dist_manhattan_nonneg).
Qed.

(** Two points at the same distance of the target, in both orders: the
    value is the same, the point is the one that comes first. *)
Lemma X6_swapped_points_witness :
  let l := [(497, 504); (503, 496)] in
  let l' := [(503, 496); (497, 504)] in
  Permutation l l' /\
  snd (Py2D.find_closest_with_sqrt l (500, 500))
  = snd (Py2D.find_closest_with_sqrt l' (500, 500)) /\
  fst (Py2D.find_closest_with_sqrt l (500, 500)) = Some (497, 504) /\
  fst (Py2D.find_closest_with_sqrt l' (500, 500)) = Some (503, 496).
Proof.
  cbv zeta.
  assert (Hp : Permutation [(497, 504); (503, 496)] [(503, 496); (497, 504)])
    by apply perm_swap.
  split; [exact Hp|].
  split; [exact (proj1 X6_value_does_not_depend_on_order _ _ (500, 500) Hp)|].
  split; reflexivity.
Defined.

(** X7: the shape of every result.  The value returned is a number, not a
    NaN, and it is not negative.  With [None] it is [infinity]; with a
    point, the point is one of the set, the value is the value of that
    point and it is below [infinity]. *)
Theorem X7_shape_of_a_result :
  result_shape Py2D.find_closest_with_sqrt Py2D.dist_sqrt /\
  result_shape Py2D.find_closest_with_squared Py2D.dist_squared /\
  result_shape Py3D.find_closest_3d_with_sqrt Py3D.dist_sqrt /\
  result_shape Py3D.find_closest_3d_with_squared Py3D.dist_squared /\
  result_shape Py3D.find_closest_3d_with_manhattan Py3D.dist_manhattan.
Proof.
  split; [|split; [|split; [|split]]].
  - exact (scan_result_shape _ _ find_closest_with_sqrt_scan
             dist_sqrt_2d_nonneg).
  - exact (scan_result_shape _ _ find_closest_with_squared_scan
             dist_squared_2d_nonneg).
  - exact (scan_result_shape _ _ find_closest_3d_with_sqrt_scan
             dist_sqrt_3d_nonneg).
  - exact (scan_result_shape _ _ find_closest_3d_with_squared_scan
             dist_squared_3d_nonneg).
  - exact (scan_result_shape _ _ find_closest_3d_with_manhattan_scan
             dist_manhattan_nonneg).
Qed.

(** X8: the two Euclidean strategies, on every point set and target.
    They return [None] together; otherwise the two points returned are at
    the same rounded distance [sqrt(dx*dx + dy*dy)] of the target, and the
    point of the square-root strategy is the same point or one that stands
    earlier in the set. *)
Theorem X8_euclidean_strategies_same_distance :
  same_rounded_distance Py2D.find_closest_with_sqrt
    Py2D.find_closest_with_squared Py2D.dist_sqrt /\
  same_rounded_distance Py3D.find_closest_3d_with_sqrt
    Py3D.find_closest_3d_with_squared Py3D.dist_sqrt.
Proof.
  split; intros sources target.
  - rewrite find_closest_with_sqrt_scan, find_closest_with_squared_scan.
    rewrite (scan_ext (Py2D.dist_sqrt target)
               (fun p => sqrt (Py2D.dist_squared target p))
               (dist_sqrt_2d target)).
    pose proof (scan_same_rounded_distance (Py2D.dist_squared target) sources
                  (dist_squared_2d_nonneg target)) as H.
    destruct (fst (scan (fun p => sqrt (Py2D.dist_squared target p)) sources
                     (None, infinity))) as [p|],
             (fst (scan (Py2D.dist_squared target) sources (None, infinity)))
             as [q|]; try exact H.
    now rewrite !dist_sqrt_2d.
  - rewrite find_closest_3d_with_sqrt_scan, find_closest_3d_with_squared_scan.
    rewrite (scan_ext (Py3D.dist_sqrt target)
               (fun p => sqrt (Py3D.dist_squared target p))
               (dist_sqrt_3d target)).
    pose proof (scan_same_rounded_distance (Py3D.dist_squared target) sources
                  (dist_squared_3d_nonneg target)) as H.
    destruct (fst (scan (fun p => sqrt (Py3D.dist_squared target p)) sources
                     (None, infinity))) as [p|],
             (fst (scan (Py3D.dist_squared target) sources (None, infinity)))
             as [q|]; try exact H.
    now rewrite !dist_sqrt_3d.
Qed.

(** X9: asked for no run ([num_runs <= 0]) the harness raises
    [StatisticsError], from [statistics.mean] of no sample, and the clock
    has not been read. *)
Theorem X9_no_run_raises :
  raises_without_runs (@benchmark_method) /\
  raises_without_runs (@benchmark_3d_method).
Proof.
  assert (H : raises_without_runs (@benchmark_method)).
  { intros P R lib f sources target num_runs c Hn.
    rewrite benchmark_method_run. unfold range_len.
    replace (Z.to_nat num_runs) with 0%nat by lia.
    cbn. destruct c. reflexivity. }
  split; exact H.
Qed.

(** The harness asked for [-2] runs. *)
Lemma X9_negative_runs_witness :
  let c := {| reading := fun n => nth n [0; 3; 10; 11] 0; reads := 0 |} in
  let lib := {| mean_of := fun _ => 0; median_of := fun _ => 0; stdev_of := fun _ => 0 |} in
  benchmark_method lib Py2D.find_closest_with_sqrt [(1, 2)] (500, 500) (-2) c
  = (inl StatisticsError, c).
Proof.
  intros c lib.
  apply (proj1 X9_no_run_raises point2 (found point2) lib
           Py2D.find_closest_with_sqrt [(1, 2)] (500, 500) (-2)%Z c).
  lia.
Defined.

(** X10: with at least one run, ['min_time'] and ['max_time'] are two of
    the samples of ['times'], no sample is below ['min_time'] and none is
    above ['max_time']. *)
Theorem X10_min_and_max_time :
  min_max_of_samples (@benchmark_method) /\
  min_max_of_samples (@benchmark_3d_method).
Proof.
  assert (H : min_max_of_samples (@benchmark_method)).
  { intros P R lib f sources target num_runs c Hn.
    rewrite benchmark_method_run. cbn [fst]. unfold range_len.
    destruct (Z.to_nat num_runs) as [|n] eqn:E; [lia|].
    cbn [elapsed repeat].
    set (t := reading c (S (reads c)) - reading c (reads c)).
    set (ts := elapsed _ n).
    destruct (summary_min_max lib t ts (f sources target :: repeat (f sources target) n))
      as (st & Hst & Ht & Hmin & Hmax).
    exists st. split; [exact Hst|]. rewrite Ht.
    destruct (py_min_spec t ts) as (m & Hm & Hin & Hlow).
    destruct (py_max_spec t ts) as (M & HM & Hin' & Hhigh).
    rewrite Hmin in Hm. rewrite Hmax in HM.
    injection Hm as <-. injection HM as <-.
    repeat split; assumption. }
  split; exact H.
Qed.

(** Three runs on a clock that reads 0, 3, 10, 11, 20, 25: the samples
    are 3, 1 and 5. *)
Lemma X10_three_runs_witness :
  let c := {| reading := fun n => nth n [0; 3; 10; 11; 20; 25] 0; reads := 0 |} in
  let lib := {| mean_of := fun _ => 0; median_of := fun _ => 0; stdev_of := fun _ => 0 |} in
  exists st,
    fst (benchmark_method lib Py2D.find_closest_with_sqrt [(1, 2)] (500, 500) 3 c)
    = inr st /\
    In (min_time st) (times st) /\
    In (max_time st) (times st) /\
    (forall t, In t (times st) -> (t <? min_time st) = false) /\
    (forall t, In t (times st) -> (max_time st <? t) = false).
Proof.
  intros c lib.
  apply (proj1 X10_min_and_max_time point2 (found point2) lib
           Py2D.find_closest_with_sqrt [(1, 2)] (500, 500) 3%Z c).
  lia.
Defined.

(** X11: the harness and the clock.  [time.perf_counter] is called twice
    per run and not otherwise, whatever [num_runs] is; with at least one
    run, ['times'] has [num_runs] samples and sample [i] is the difference
    of the readings [2i + 1] and [2i] that follow the call. *)
Theorem X11_clock_read_twice_per_run :
  clock_read_twice_per_run (@benchmark_method) /\
  clock_read_twice_per_run (@benchmark_3d_method).
Proof.
  assert (H : clock_read_twice_per_run (@benchmark_method)).
  { intros P R lib f sources target num_runs c.
    rewrite benchmark_method_run. cbn [fst snd]. unfold range_len.
    split; [reflexivity|]. intros Hn.
    destruct (Z.to_nat num_runs) as [|n] eqn:E; [lia|].
    pose proof (elapsed_length c (S n)) as Hlen.
    pose proof (elapsed_nth c (S n)) as Hnth.
    cbn [elapsed repeat] in *.
    destruct (summary_defined lib
                (reading c (S (reads c)) - reading c (reads c))
                (elapsed {| reading := reading c; reads := S (S (reads c)) |} n)
                (f sources target :: repeat (f sources target) n))
      as (st & Hst & Ht & _).
    exists st. split; [exact Hst|]. rewrite Ht.
    split; [exact Hlen | exact Hnth]. }
  split; exact H.
Qed.

(** Two runs on a clock that reads 0, 3, 10, 11: the samples are 3 and 1. *)
Lemma X11_two_runs_witness :
  let c := {| reading := fun n => nth n [0; 3; 10; 11] 0; reads := 0 |} in
  let lib := {| mean_of := fun _ => 0; median_of := fun _ => 0; stdev_of := fun _ => 0 |} in
  exists st,
    fst (benchmark_method lib Py2D.find_closest_with_sqrt [(1, 2)] (500, 500) 2 c)
    = inr st /\
    length (times st) = 2%nat /\
    forall i, (i < 2)%nat ->
      nth_error (times st) i
      = Some (reading c (2 * i + 1 + reads c) - reading c (2 * i + reads c)).
Proof.
  intros c lib.
  apply (proj2 (proj1 X11_clock_read_twice_per_run point2 (found point2) lib
                  Py2D.find_closest_with_sqrt [(1, 2)] (500, 500) 2%Z c)).
  lia.
Defined.
